(** * FEND Arcade Game: the game loop of [src/js/engine.js]

    A shallow embedding of the engine's loop core: the frame callback [main],
    [init], the phase dispatch of [update] and [render], [checkCollisions],
    and the part of the browser the loop talks to (the document's listener
    table, the animation-frame queue, [Date.now] and the canvas context).

    JavaScript numbers are IEEE 754 binary64 values, which is what Rocq's
    primitive [float] is: [<], [+], [-], [*] and [/] of the source are the
    primitive operations, rounding and NaN included.

    The script runs in a monad that threads the state of the page and logs
    what the run does as a call tree: a call of one of the engine's functions
    is a node whose children are what the body did. app.js is not part of
    the engine; what the engine calls of it is a type class ([AppJs]). *)

From Stdlib Require Import ZArith List String Bool Lia Floats Uint63.
Import ListNotations.
Local Open Scope string_scope.
Local Open Scope list_scope.
Set Warnings "-inexact-float".

(** ** Numbers *)

Definition number : Type := float.

(** A loop counter ([row], [col]) as the number it is in the source. *)
Definition num_of_nat (n : nat) : number :=
  PrimFloat.of_uint63 (Uint63.of_Z (Z.of_nat n)).

(** [a > b] of the source; on IEEE numbers it is [b < a]. *)
Definition gtb (a b : number) : bool := PrimFloat.ltb b a.

(** [now - lastTime] where [lastTime] may still be [undefined]
    ([let lastTime;]): [ToNumber(undefined)] is NaN. *)
Definition toNumber (v : option number) : number :=
  match v with
  | Some n => n
  | None => PrimFloat.nan
  end.

(** ** The game phase: the three string literals [gameStatus] is ever given *)

Inductive GameStatus : Type :=
| NewGame
| InGame
| GameOver.

Definition status_literal (g : GameStatus) : string :=
  match g with
  | NewGame => "new game"
  | InGame => "in game"
  | GameOver => "game over"
  end.

(** ** The document's listener table *)

Inductive EventType : Type :=
| KeyDown
| KeyUp.

(** The function objects the loop registers. [Input] is the one global
    [input] of app.js; [startInput] and [gameoverInput] are closures created
    anew by each call of [update], told apart by the order of creation. *)
Inductive Listener : Type :=
| Input
| StartInput (id : nat)
| GameoverInput (id : nat).

Definition eventType_eqb (a b : EventType) : bool :=
  match a, b with
  | KeyDown, KeyDown => true
  | KeyUp, KeyUp => true
  | _, _ => false
  end.

Definition listener_eqb (a b : Listener) : bool :=
  match a, b with
  | Input, Input => true
  | StartInput i, StartInput j => Nat.eqb i j
  | GameoverInput i, GameoverInput j => Nat.eqb i j
  | _, _ => false
  end.

Definition entry_eqb (a b : EventType * Listener) : bool :=
  eventType_eqb (fst a) (fst b) && listener_eqb (snd a) (snd b).

Definition ListenerTable : Type := list (EventType * Listener).

(** [document.addEventListener(type, f)]: a listener already registered for
    the type is not registered twice; a new one goes last. *)
Definition addEventListener (ty : EventType) (f : Listener)
    (t : ListenerTable) : ListenerTable :=
  if existsb (entry_eqb (ty, f)) t then t else t ++ [(ty, f)].

(** [document.removeEventListener(type, f)]. *)
Definition removeEventListener (ty : EventType) (f : Listener)
    (t : ListenerTable) : ListenerTable :=
  filter (fun e => negb (entry_eqb (ty, f) e)) t.

(** The listeners of one type, in the order of registration. *)
Definition listenersOf (ty : EventType) (t : ListenerTable) : list Listener :=
  map snd (filter (fun e => eventType_eqb ty (fst e)) t).

(** The closures the engine makes, as opposed to app.js's [input]. *)
Definition isClosure (f : Listener) : bool :=
  match f with
  | Input => false
  | StartInput _ | GameoverInput _ => true
  end.

(** Every closure in the table is one of the first [c] closures made, and
    is registered for key-down. *)
Definition tableKnown (c : nat) (t : ListenerTable) : Prop :=
  forall ty id,
    In (ty, StartInput id) t \/ In (ty, GameoverInput id) t ->
    ty = KeyDown /\ id < c.

(** Nothing but [input] on key-up has left the table. *)
Definition tableKeeps (t t' : ListenerTable) : Prop :=
  forall e, In e t -> e <> (KeyUp, Input) -> In e t'.

(** What the browser can do to the page between two runs of script. *)
Inductive BrowserEvent : Type :=
| KeyDownEvent (keyCode : Z)
| KeyUpEvent (keyCode : Z)
| AnimationFrame.

(** ** Canvas constants *)

Definition canvas_width : number := 505%float.
Definition canvas_height : number := 606%float.

Definition rowImages : list string :=
  [ "images/water-block.png";
    "images/stone-block.png";
    "images/stone-block.png";
    "images/stone-block.png";
    "images/grass-block.png";
    "images/grass-block.png" ].

Definition numRows : nat := 6.
Definition numCols : nat := 5.

(** ** The collaborators of app.js, which the engine only calls

    Entities own more than a position (a speed, a sprite, ...): that part is
    kept abstract ([rest]). *)

Record Enemy (R : Type) : Type := mkEnemy {
  enemy_x : number;
  enemy_y : number;
  enemy_rest : R
}.

Record Player (R : Type) : Type := mkPlayer {
  player_x : number;
  player_y : number;
  player_rest : R
}.

Arguments mkEnemy {R} _ _ _.
Arguments enemy_x {R} _.
Arguments enemy_y {R} _.
Arguments enemy_rest {R} _.
Arguments mkPlayer {R} _ _ _.
Arguments player_x {R} _.
Arguments player_y {R} _.
Arguments player_rest {R} _.

(** [player.x = v] and [player.y = v]. *)
Definition assign_x {R} (v : number) (p : Player R) : Player R :=
  mkPlayer v (player_y p) (player_rest p).

Definition assign_y {R} (v : number) (p : Player R) : Player R :=
  mkPlayer (player_x p) v (player_rest p).

(** What app.js and the host provide: the entities' [update] methods, the
    global [input] handler (it gets the event's key code), and the clock:
    [dateNow k] is what the [k]-th call of [Date.now()] returns. *)
Class AppJs (ER PR : Type) : Type := {
  enemy_update : number -> Enemy ER -> Enemy ER;
  player_update : Player PR -> Player PR;
  input : Z -> Player PR -> Player PR;
  dateNow : nat -> number
}.

(** ** What a run leaves behind: the call tree and the canvas operations *)

Inductive Fn : Type :=
| Fmain
| Finit
| Fupdate (dt : number)
| Frender
| FupdateEntities (dt : number)
| FcheckCollisions
| FrenderEntities.

#[warnings="-register-all"]
Inductive Ev (ER PR : Type) : Type :=
| Call (f : Fn) (body : list (Ev ER PR))
| ReadDateNow (t : number)
| AssignLastTime (t : number)
| AssignGameStatus (g : GameStatus)
| RequestAnimationFrame
| ClearRect (x y w h : number)
| DrawImage (img : string) (x y : number)
| FillStyle (v : string)
| Font (v : string)
| TextAlign (v : string)
| FillText (text : string) (x y : number)
| EnemyRender (e : Enemy ER)
| PlayerRender (p : Player PR).

Arguments Call {ER PR} _ _.
Arguments ReadDateNow {ER PR} _.
Arguments AssignLastTime {ER PR} _.
Arguments AssignGameStatus {ER PR} _.
Arguments RequestAnimationFrame {ER PR}.
Arguments ClearRect {ER PR} _ _ _ _.
Arguments DrawImage {ER PR} _ _ _.
Arguments FillStyle {ER PR} _.
Arguments Font {ER PR} _.
Arguments TextAlign {ER PR} _.
Arguments FillText {ER PR} _ _ _.
Arguments EnemyRender {ER PR} _.
Arguments PlayerRender {ER PR} _.

(** ** The state of the page

    [gameStatus] and [lastTime] are the engine's two variables; [player] and
    [allEnemies] the globals of app.js; [listeners] the document's table;
    [closures] counts the listener closures created so far; [rafQueue] the
    callbacks waiting for the next animation frame (the engine only ever
    queues [main]); [clockReads] the calls of [Date.now()] so far. *)

Record State (ER PR : Type) : Type := mkState {
  gameStatus : GameStatus;
  lastTime : option number;
  player : Player PR;
  allEnemies : list (Enemy ER);
  listeners : ListenerTable;
  closures : nat;
  rafQueue : nat;
  clockReads : nat
}.

Arguments mkState {ER PR} _ _ _ _ _ _ _ _.
Arguments gameStatus {ER PR} _.
Arguments lastTime {ER PR} _.
Arguments player {ER PR} _.
Arguments allEnemies {ER PR} _.
Arguments listeners {ER PR} _.
Arguments closures {ER PR} _.
Arguments rafQueue {ER PR} _.
Arguments clockReads {ER PR} _.

Section StateAndMonad.

Context {ER PR : Type}.

Definition set_gameStatus (v : GameStatus) (s : State ER PR) : State ER PR :=
  mkState v (lastTime s) (player s) (allEnemies s) (listeners s)
          (closures s) (rafQueue s) (clockReads s).

Definition set_lastTime (v : option number) (s : State ER PR) : State ER PR :=
  mkState (gameStatus s) v (player s) (allEnemies s) (listeners s)
          (closures s) (rafQueue s) (clockReads s).

Definition set_player (v : Player PR) (s : State ER PR) : State ER PR :=
  mkState (gameStatus s) (lastTime s) v (allEnemies s) (listeners s)
          (closures s) (rafQueue s) (clockReads s).

Definition set_allEnemies (v : list (Enemy ER)) (s : State ER PR)
    : State ER PR :=
  mkState (gameStatus s) (lastTime s) (player s) v (listeners s)
          (closures s) (rafQueue s) (clockReads s).

Definition set_listeners (v : ListenerTable) (s : State ER PR) : State ER PR :=
  mkState (gameStatus s) (lastTime s) (player s) (allEnemies s) v
          (closures s) (rafQueue s) (clockReads s).

Definition set_closures (v : nat) (s : State ER PR) : State ER PR :=
  mkState (gameStatus s) (lastTime s) (player s) (allEnemies s) (listeners s)
          v (rafQueue s) (clockReads s).

Definition set_rafQueue (v : nat) (s : State ER PR) : State ER PR :=
  mkState (gameStatus s) (lastTime s) (player s) (allEnemies s) (listeners s)
          (closures s) v (clockReads s).

Definition set_clockReads (v : nat) (s : State ER PR) : State ER PR :=
  mkState (gameStatus s) (lastTime s) (player s) (allEnemies s) (listeners s)
          (closures s) (rafQueue s) v.

(** ** The monad of the script: the state, the events logged, and running
    out of fuel (the one recursion of the source goes through
    [this.init()]) *)

Definition M (A : Type) : Type :=
  State ER PR -> option (A * State ER PR * list (Ev ER PR)).

Definition ret {A} (a : A) : M A := fun s => Some (a, s, []).

Definition bind {A B} (m : M A) (k : A -> M B) : M B :=
  fun s =>
    match m s with
    | None => None
    | Some (a, s1, l1) =>
        match k a s1 with
        | None => None
        | Some (b, s2, l2) => Some (b, s2, l1 ++ l2)
        end
    end.

Definition outOfFuel {A} : M A := fun _ => None.

Definition gets {A} (f : State ER PR -> A) : M A := fun s => Some (f s, s, []).

Definition modify (f : State ER PR -> State ER PR) : M unit :=
  fun s => Some (tt, f s, []).

Definition emit (l : list (Ev ER PR)) : M unit := fun s => Some (tt, s, l).

(** A call of one of the engine's functions: what the body logs becomes the
    children of one node of the call tree. *)
Definition call {A} (f : Fn) (m : M A) : M A :=
  fun s =>
    match m s with
    | None => None
    | Some (a, s1, l) => Some (a, s1, [Call f l])
    end.

End StateAndMonad.

Arguments M ER PR A : clear implicits.

Declare Scope script_scope.
Delimit Scope script_scope with script.

Notation "x <- c1 ;; c2" := (bind c1 (fun x => c2))
  (at level 61, c1 at next level, right associativity) : script_scope.
Notation "c1 ;; c2" := (bind c1 (fun _ => c2))
  (at level 61, right associativity) : script_scope.

Local Open Scope script_scope.

Section Engine.

Context {ER PR : Type} `{app : AppJs ER PR}.

Local Abbreviation Script := (M ER PR).

(** [l.forEach(f)], and a [for (i = 0; i < n; i++)] loop. *)
Fixpoint forEach {A} (l : list A) (f : A -> Script unit) : Script unit :=
  match l with
  | [] => ret tt
  | a :: l' => f a ;; forEach l' f
  end.

Definition forRange (n : nat) (f : nat -> Script unit) : Script unit :=
  forEach (seq 0 n) f.

(** [Date.now()]. *)
Definition dateNowCall : Script number :=
  fun s =>
    let t := dateNow (clockReads s) in
    Some (t, set_clockReads (S (clockReads s)) s, [ReadDateNow t]).

(** [win.requestAnimationFrame(main)]. *)
Definition requestAnimationFrame : Script unit :=
  modify (fun s => set_rafQueue (S (rafQueue s)) s) ;;
  emit [RequestAnimationFrame].

(** [lastTime = t] and [gameStatus = g]. *)
Definition assignLastTime (t : number) : Script unit :=
  modify (set_lastTime (Some t)) ;;
  emit [AssignLastTime t].

Definition assignGameStatus (g : GameStatus) : Script unit :=
  modify (set_gameStatus g) ;;
  emit [AssignGameStatus g].

(** [player.x = 200; player.y = 380;]. *)
Definition resetPlayer : Script unit :=
  modify (fun s => set_player (assign_x 200%float (player s)) s) ;;
  modify (fun s => set_player (assign_y 380%float (player s)) s).

(** The closure a function expression evaluates to: a new function object
    each time. *)
Definition newClosure (mk : nat -> Listener) : Script Listener :=
  fun s => Some (mk (closures s), set_closures (S (closures s)) s, []).

(** ** checkCollisions (engine.js, 126-145) *)

(** The test of the [if] inside the [forEach]. *)
Definition collides (p : Player PR) (enemy : Enemy ER) : bool :=
  PrimFloat.ltb (player_x p) (enemy_x enemy + 60)%float
  && gtb (player_x p + 37)%float (enemy_x enemy)
  && PrimFloat.ltb (player_y p) (enemy_y enemy + 25)%float
  && gtb (30 + player_y p)%float (enemy_y enemy).

(** The callback given to [allEnemies.forEach]. *)
Definition collisionStep (enemy : Enemy ER) : Script unit :=
  p <- gets player ;;
  if collides p enemy then resetPlayer else ret tt.

(** [this] of the arrow functions is the [this] of the enclosing function
    expression, called without a receiver in a script that is not strict:
    the global object, on which the undeclared assignment [init = ...] has
    put [init]. So [this.init()] calls [init]; it is a parameter here and
    bound when the recursion is tied below. *)
Definition checkCollisions (this_init : Script unit) : Script unit :=
  call FcheckCollisions (
    enemies <- gets allEnemies ;;
    forEach enemies collisionStep ;;
    p <- gets player ;;
    if PrimFloat.ltb (player_y p) 0%float then
      resetPlayer ;;
      assignGameStatus GameOver ;;
      this_init
    else ret tt).

(** ** updateEntities (engine.js, 154-159): every enemy's [update(dt)], then
    the player's [update()] *)
Definition updateEntities (dt : number) : Script unit :=
  call (FupdateEntities dt) (
    modify (fun s => set_allEnemies (map (enemy_update dt) (allEnemies s)) s) ;;
    modify (fun s => set_player (player_update (player s)) s)).

(** ** update (engine.js, 80-121) *)
Definition update (this_init : Script unit) (dt : number) : Script unit :=
  call (Fupdate dt) (
    status <- gets gameStatus ;;
    match status with
    | NewGame =>
        modify (fun s =>
          set_listeners (removeEventListener KeyUp Input (listeners s)) s) ;;
        startInput <- newClosure StartInput ;;
        modify (fun s =>
          set_listeners (addEventListener KeyDown startInput (listeners s)) s)
    | InGame =>
        modify (fun s =>
          set_listeners (addEventListener KeyUp Input (listeners s)) s) ;;
        updateEntities dt ;;
        checkCollisions this_init
    | GameOver =>
        modify (fun s =>
          set_listeners (removeEventListener KeyUp Input (listeners s)) s) ;;
        gameoverInput <- newClosure GameoverInput ;;
        modify (fun s =>
          set_listeners (addEventListener KeyDown gameoverInput (listeners s)) s)
    end).

(** ** render (engine.js, 167-252) and renderEntities (258-267) *)

(** [ctx.drawImage(Resources.get(rowImages[row]), col * 101, row * 83)];
    the image is named by its path. *)
Definition drawTile (row col : nat) : Ev ER PR :=
  DrawImage (nth row rowImages "")
            (num_of_nat col * 101)%float (num_of_nat row * 83)%float.

(** The text drawn over the board, for each tile, while the game has not
    started. *)
Definition newGameOverlay : list (Ev ER PR) :=
  [ FillStyle "black";
    Font "40px Comic Sans MS";
    TextAlign "center";
    FillText "FEND Arcade Game" (canvas_width / 2)%float (canvas_height / 3)%float;
    FillStyle "black";
    Font "20px Comic Sans MS";
    TextAlign "center";
    FillText "Press Enter To Start"
             (canvas_width / 2)%float (canvas_height / 2.5)%float;
    FillStyle "black";
    Font "16px Comic Sans MS";
    TextAlign "center";
    FillText "Use the arrow keys to move"
             (canvas_width / 2)%float (canvas_height / 1.7)%float;
    FillText "Avoid the bugs to win the game!"
             (canvas_width / 2)%float (canvas_height / 1.5)%float;
    FillStyle "Black";
    Font "20px Comic Sans MS";
    TextAlign "center";
    FillText "Good Luck!" (canvas_width / 2)%float (canvas_height / 1.2)%float ].

(** The same once the game is won. *)
Definition gameOverOverlay : list (Ev ER PR) :=
  [ FillStyle "black";
    Font "40px Comic Sans MS";
    TextAlign "center";
    FillText "CONGRATULATIONS!" (canvas_width / 2)%float (canvas_height / 3)%float;
    FillText "You won!" (canvas_width / 2)%float (canvas_height / 2.3)%float;
    FillStyle "black";
    Font "20px Comic Sans MS";
    TextAlign "center";
    FillText "Press Enter To Restart"
             (canvas_width / 2)%float (canvas_height / 2)%float ].

Definition renderEntities : Script unit :=
  call FrenderEntities (
    enemies <- gets allEnemies ;;
    forEach enemies (fun enemy => emit [EnemyRender enemy]) ;;
    p <- gets player ;;
    emit [PlayerRender p]).

Definition render : Script unit :=
  call Frender (
    emit [ClearRect 0%float 0%float canvas_width canvas_height] ;;
    status <- gets gameStatus ;;
    match status with
    | NewGame =>
        forRange numRows (fun row =>
          forRange numCols (fun col =>
            emit (drawTile row col :: newGameOverlay)))
    | InGame =>
        forRange numRows (fun row =>
          forRange numCols (fun col =>
            emit [drawTile row col])) ;;
        renderEntities
    | GameOver =>
        forRange numRows (fun row =>
          forRange numCols (fun col =>
            emit (drawTile row col :: gameOverOverlay)))
    end).

(** ** main (engine.js, 35-60) and init (66-69) *)

(** The body of [main], with the [init] that [checkCollisions] will find
    on the global object. *)
Definition mainWith (this_init : Script unit) : Script unit :=
  call Fmain (
    now <- dateNowCall ;;
    last <- gets lastTime ;;
    let dt := ((now - toNumber last) / 1000)%float in
    update this_init dt ;;
    render ;;
    assignLastTime now ;;
    requestAnimationFrame).

(** The body of [init], with the [main] it calls. *)
Definition initWith (main : Script unit) : Script unit :=
  call Finit (
    now <- dateNowCall ;;
    assignLastTime now ;;
    main).

(** [main] calls [update], which calls [checkCollisions], which calls
    [init], which calls [main]: [fuel] bounds the depth of that chain. *)
Fixpoint main (fuel : nat) : Script unit :=
  match fuel with
  | O => outOfFuel
  | S fuel' => mainWith (initWith (main fuel'))
  end.

Definition init (fuel : nat) : Script unit := initWith (main fuel).

(** ** The browser around the script

    [reset] (engine.js, 273-357) is defined but called by nothing in the
    engine: no run of the page executes it, and it is left out. *)

(** What a registered function does when it is called with an event of key
    code [keyCode]: [input] is app.js's; [startInput] and [gameoverInput]
    (engine.js, 86-92 and 110-115) have the same body. *)
Definition runListener (keyCode : Z) (f : Listener) : Script unit :=
  match f with
  | Input => modify (fun s => set_player (input keyCode (player s)) s)
  | StartInput _ | GameoverInput _ =>
      if (keyCode =? 13)%Z then assignGameStatus InGame else ret tt
  end.

(** An event of type [ty] on the document: every listener of the type, in
    the order of registration. *)
Definition dispatchEvent (ty : EventType) (keyCode : Z) : Script unit :=
  fs <- gets (fun s => listenersOf ty (listeners s)) ;;
  forEach fs (runListener keyCode).

(** An animation frame: the callbacks queued before the frame are run; what
    they queue is for the next frame. *)
Definition animationFrame (fuel : nat) : Script unit :=
  n <- gets rafQueue ;;
  modify (set_rafQueue 0) ;;
  forRange n (fun _ => main fuel).

Definition browserStep (fuel : nat) (ev : BrowserEvent) : Script unit :=
  match ev with
  | KeyDownEvent keyCode => dispatchEvent KeyDown keyCode
  | KeyUpEvent keyCode => dispatchEvent KeyUp keyCode
  | AnimationFrame => animationFrame fuel
  end.

Definition browserRun (fuel : nat) (evs : list BrowserEvent) : Script unit :=
  forEach evs (browserStep fuel).

(** The page once engine.js has been evaluated and before [Resources]
    calls [init]: the phase is ["new game"], [lastTime] is undefined. *)
Definition freshPage (p : Player PR) (enemies : list (Enemy ER))
    (t : ListenerTable) : State ER PR :=
  mkState NewGame None p enemies t 0 0 0.

End Engine.

(** ** A sample app.js, to run the engine on concrete pages

    Enemies carry their speed and move right by [speed * dt]; the player's
    [update] does nothing; the arrow keys move the player by one tile; the
    clock advances 16 ms per reading. *)

Definition sample_enemy_update (dt : number) (e : Enemy number) : Enemy number :=
  mkEnemy (enemy_x e + enemy_rest e * dt)%float (enemy_y e) (enemy_rest e).

Definition sample_input (keyCode : Z) (p : Player unit) : Player unit :=
  if (keyCode =? 37)%Z then assign_x (player_x p - 101)%float p
  else if (keyCode =? 38)%Z then assign_y (player_y p - 83)%float p
  else if (keyCode =? 39)%Z then assign_x (player_x p + 101)%float p
  else if (keyCode =? 40)%Z then assign_y (player_y p + 83)%float p
  else p.

Definition sample_dateNow (k : nat) : number :=
  (1000 + 16 * num_of_nat k)%float.

#[export] Instance sampleApp : AppJs number unit := {
  enemy_update := sample_enemy_update;
  player_update := fun p => p;
  input := sample_input;
  dateNow := sample_dateNow
}.

Definition samplePlayer (x y : number) : Player unit := mkPlayer x y tt.

(** An enemy that stands still. *)
Definition sampleEnemy (x y : number) : Enemy number := mkEnemy x y 0%float.

(** A page in the middle of a game. *)
Definition samplePage (status : GameStatus) (p : Player unit)
    (enemies : list (Enemy number)) : State number unit :=
  mkState status (Some 1000%float) p enemies [(KeyUp, Input)] 0 1 0.

(** ** Derived descriptions used by the statements below *)

Section Derived.

Context {ER PR : Type} `{app : AppJs ER PR}.

(** The player put back on the start tile. *)
Definition startPosition (p : Player PR) : Player PR :=
  assign_y 380%float (assign_x 200%float p).

(** What one round of the collision loop makes of the player. *)
Definition hit (p : Player PR) (enemy : Enemy ER) : Player PR :=
  if collides p enemy then startPosition p else p.

(** The player after the whole collision loop. *)
Definition afterEnemies (enemies : list (Enemy ER)) (p : Player PR)
    : Player PR :=
  fold_left hit enemies p.

(** The state in which the ["in game"] branch of [update dt] calls
    [checkCollisions]. *)
Definition enteringCollisions (dt : number) (s : State ER PR) : State ER PR :=
  set_player (player_update (player s))
    (set_allEnemies (map (enemy_update dt) (allEnemies s))
      (set_listeners (addEventListener KeyUp Input (listeners s)) s)).

(** The [dt] that a call of [main] in state [s] computes. *)
Definition frameDelta (s : State ER PR) : number :=
  ((dateNow (clockReads s) - toNumber (lastTime s)) / 1000)%float.

(** The board as [render] draws it, tile by tile, each tile followed by the
    overlay of the phase. *)
Definition board (overlay : list (Ev ER PR)) : list (Ev ER PR) :=
  flat_map (fun row =>
    flat_map (fun col => drawTile row col :: overlay) (seq 0 numCols))
    (seq 0 numRows).

(** Every closure in the table was made by the engine before now, for
    key-down: the identity of the next closure is not in use. *)
Definition closuresKnown (s : State ER PR) : Prop :=
  tableKnown (closures s) (listeners s).

(** From [s] to [s'] no listener but [input] on key-up was removed, and the
    closures stay known. *)
Definition evolves (s s' : State ER PR) : Prop :=
  tableKeeps (listeners s) (listeners s') /\
  (closuresKnown s -> closuresKnown s').

(** The state a call of [update] leaves when the phase is ["new game"] or
    ["game over"]: [input] is taken off key-up and the new closure [mk] is
    put on key-down. *)
Definition waitingUpdate (mk : nat -> Listener) (s : State ER PR)
    : State ER PR :=
  set_listeners
    (addEventListener KeyDown (mk (closures s))
       (removeEventListener KeyUp Input (listeners s)))
    (set_closures (S (closures s)) s).

(** The same for a whole call of [main]: the clock is read, [update] runs
    as above, [lastTime] is assigned and [main] is queued again. *)
Definition waitingFrame (mk : nat -> Listener) (s : State ER PR)
    : State ER PR :=
  set_rafQueue (S (rafQueue s))
    (set_lastTime (Some (dateNow (clockReads s)))
      (waitingUpdate mk (set_clockReads (S (clockReads s)) s))).

(** The closure made by [update] in a phase that waits for Enter. *)
Definition closureOf (g : GameStatus) : nat -> Listener :=
  match g with
  | GameOver => GameoverInput
  | _ => StartInput
  end.

(** The state [init] leaves when the phase waits for Enter. *)
Definition afterInit (s : State ER PR) : State ER PR :=
  waitingFrame (closureOf (gameStatus s))
    (set_lastTime (Some (dateNow (clockReads s)))
       (set_clockReads (S (clockReads s)) s)).

(** The state in which [checkCollisions] calls [this.init()]: the player
    [p] that came out of the collision loop is on the start tile and the
    phase is ["game over"]. *)
Definition wonState (p : Player PR) (s : State ER PR) : State ER PR :=
  set_gameStatus GameOver (set_player (startPosition p) s).

(** The clear of the whole canvas. *)
Definition clearAll : Ev ER PR :=
  ClearRect 0%float 0%float canvas_width canvas_height.

(** What [render] draws after the clear, by phase. *)
Definition scene (s : State ER PR) : list (Ev ER PR) :=
  match gameStatus s with
  | NewGame => board newGameOverlay
  | InGame =>
      board [] ++
      [Call FrenderEntities
         (map EnemyRender (allEnemies s) ++ [PlayerRender (player s)])]
  | GameOver => board gameOverOverlay
  end.

(** The children of the node a call of [main] leaves in the call tree, in
    a state where [Date.now()] returns [now] and [lastTime] holds [last]. *)
Definition mainChildren (now : number) (last : option number)
    (inUpdate inRender : list (Ev ER PR)) : list (Ev ER PR) :=
  [ ReadDateNow now;
    Call (Fupdate ((now - toNumber last) / 1000)%float) inUpdate;
    Call Frender inRender;
    AssignLastTime now;
    RequestAnimationFrame ].

End Derived.

(** ** Sample pages *)

(** A page in the phase ["in game"] whose player has reached the top, with
    no enemy near. *)
Definition wonPage : State number unit :=
  samplePage InGame (samplePlayer 0%float (-5)%float) [sampleEnemy 300%float 100%float].

(** The same with an enemy whose hitbox overlaps the player's. *)
Definition wonAndHitPage : State number unit :=
  samplePage InGame (samplePlayer 0%float (-5)%float) [sampleEnemy 0%float (-10)%float].

(** A page in the phase ["in game"] with the player on the start tile and an
    enemy running into it. *)
Definition hitPage : State number unit :=
  samplePage InGame (samplePlayer 200%float 380%float) [sampleEnemy 180%float 380%float].

(** A page in the phase ["in game"] with the player away from the enemy. *)
Definition quietPage : State number unit :=
  samplePage InGame (samplePlayer 200%float 380%float) [sampleEnemy 400%float 380%float].

(** The page before [init], with app.js's [input] on key-up. *)
Definition startPage : State number unit :=
  freshPage (samplePlayer 200%float 380%float) [sampleEnemy 0%float 60%float] [(KeyUp, Input)].

(** ** Further descriptions, for the properties beyond the claims *)

Section MoreDerived.

Context {ER PR : Type}.

(** What a run did, in order and without the nesting of the calls. *)
Fixpoint leaves (e : Ev ER PR) : list (Ev ER PR) :=
  match e with
  | Call _ body => flat_map leaves body
  | _ => [e]
  end.

Definition leavesOf (l : list (Ev ER PR)) : list (Ev ER PR) :=
  flat_map leaves l.

(** A tile of the board, and a sprite of an entity. *)
Definition isTile (e : Ev ER PR) : bool :=
  match e with
  | DrawImage _ _ _ => true
  | _ => false
  end.

Definition isClear (e : Ev ER PR) : bool :=
  match e with
  | ClearRect _ _ _ _ => true
  | _ => false
  end.

(** A request for the next animation frame. *)
Definition isRequest (e : Ev ER PR) : bool :=
  match e with
  | RequestAnimationFrame => true
  | _ => false
  end.

Definition isSprite (e : Ev ER PR) : bool :=
  match e with
  | EnemyRender _ | PlayerRender _ => true
  | _ => false
  end.

(** What every step of the browser keeps: the phase does not go back to
    ["new game"], the frame queue does not shrink, [lastTime] stays defined,
    no enemy is added or removed, and the table holds no registration
    twice. *)
Definition advances (s s' : State ER PR) : Prop :=
  (gameStatus s <> NewGame -> gameStatus s' <> NewGame) /\
  rafQueue s <= rafQueue s' /\
  (lastTime s <> None -> lastTime s' <> None) /\
  List.length (allEnemies s') = List.length (allEnemies s) /\
  (NoDup (listeners s) -> NoDup (listeners s')).

End MoreDerived.

(** More sample pages: a game that waits for Enter after a win, with two
    callbacks queued, and a page on which [init] has run. *)
Definition gameOverPage : State number unit :=
  mkState GameOver (Some 1000%float) (samplePlayer 200%float 380%float)
          [sampleEnemy 0%float 60%float] [(KeyDown, StartInput 0)] 1 2 0.

(** An enemy that runs to the right at [speed] units per second. *)
Definition movingEnemy (x y speed : number) : Enemy number :=
  mkEnemy x y speed.

(** A game that runs: 16 ms after the last frame, the player at (100, 200),
    an enemy just left of its hitbox running into it at 100 units per
    second, [input] on key-up, a [startInput] closure still on key-down and
    one callback queued. *)
Definition runningPage : State number unit :=
  mkState InGame (Some 1000%float) (samplePlayer 100%float 200%float)
          [movingEnemy 39.5%float 200%float 100%float]
          [(KeyUp, Input); (KeyDown, StartInput 0)] 1 1 1.

(** A game that waits for Enter after a win, with a running enemy, two
    closures on key-down and two callbacks queued. *)
Definition pausedPage : State number unit :=
  mkState GameOver (Some 1000%float) (samplePlayer 200%float 380%float)
          [movingEnemy 39.5%float 200%float 100%float]
          [(KeyDown, StartInput 0); (KeyDown, GameoverInput 1)] 2 2 1.

(** * Properties *)

(** ** The listener table *)

Lemma eventType_eqb_eq (a b : EventType) : eventType_eqb a b = true <-> a = b.
Proof. destruct a, b; simpl; split; congruence. Qed.

Lemma listener_eqb_eq (a b : Listener) : listener_eqb a b = true <-> a = b.
Proof.
  destruct a as [|i|i], b as [|j|j]; simpl; try (split; congruence);
    rewrite Nat.eqb_eq; split; congruence.
Qed.

Lemma entry_eqb_eq (a b : EventType * Listener) : entry_eqb a b = true <-> a = b.
Proof.
  destruct a as [ta fa], b as [tb fb]. unfold entry_eqb. simpl.
  rewrite andb_true_iff, eventType_eqb_eq, listener_eqb_eq.
  split; [intros [-> ->]; reflexivity | intros H; injection H; auto].
Qed.

Lemma existsb_entry (e : EventType * Listener) (t : ListenerTable) :
  existsb (entry_eqb e) t = true <-> In e t.
Proof.
  rewrite existsb_exists. split.
  - intros [x [Hin Heq]]. apply entry_eqb_eq in Heq. subst. exact Hin.
  - intros Hin. exists e. split; [exact Hin | apply entry_eqb_eq; reflexivity].
Qed.

Lemma addEventListener_keeps ty f t e :
  In e t -> In e (addEventListener ty f t).
Proof.
  intros Hin. unfold addEventListener.
  destruct (existsb _ t); [exact Hin | apply in_or_app; left; exact Hin].
Qed.

Lemma addEventListener_has ty f t : In (ty, f) (addEventListener ty f t).
Proof.
  unfold addEventListener. destruct (existsb _ t) eqn:Hex.
  - apply existsb_entry. exact Hex.
  - apply in_or_app. right. left. reflexivity.
Qed.

Lemma addEventListener_inv ty f t e :
  In e (addEventListener ty f t) -> In e t \/ e = (ty, f).
Proof.
  unfold addEventListener. destruct (existsb _ t).
  - intros Hin. left. exact Hin.
  - intros Hin. apply in_app_or in Hin. destruct Hin as [Hin | [<- | []]].
    + left. exact Hin.
    + right. reflexivity.
Qed.

Lemma addEventListener_new ty f t :
  ~ In (ty, f) t -> addEventListener ty f t = t ++ [(ty, f)].
Proof.
  intros Hnew. unfold addEventListener.
  destruct (existsb _ t) eqn:Hex; [|reflexivity].
  apply existsb_entry in Hex. contradiction.
Qed.

Lemma removeEventListener_inv ty f t e :
  In e (removeEventListener ty f t) -> In e t.
Proof. unfold removeEventListener. intros Hin. apply filter_In in Hin. tauto. Qed.

Lemma removeEventListener_keeps ty f t e :
  In e t -> e <> (ty, f) -> In e (removeEventListener ty f t).
Proof.
  intros Hin Hne. unfold removeEventListener. apply filter_In.
  split; [exact Hin|].
  destruct (entry_eqb (ty, f) e) eqn:Heq; [|reflexivity].
  apply entry_eqb_eq in Heq. congruence.
Qed.

Lemma removeEventListener_gone ty f t :
  ~ In (ty, f) (removeEventListener ty f t).
Proof.
  unfold removeEventListener. intros Hin. apply filter_In in Hin.
  destruct Hin as [_ Hne].
  assert (Heq : entry_eqb (ty, f) (ty, f) = true)
    by (apply entry_eqb_eq; reflexivity).
  rewrite Heq in Hne. discriminate.
Qed.

Lemma removeEventListener_absent ty f t :
  ~ In (ty, f) t -> removeEventListener ty f t = t.
Proof.
  unfold removeEventListener. induction t as [|e t IH]; intros Hno.
  - reflexivity.
  - simpl. destruct (entry_eqb (ty, f) e) eqn:Heq.
    + apply entry_eqb_eq in Heq. subst e. exfalso. apply Hno. left. reflexivity.
    + simpl. f_equal. apply IH. intros Hin. apply Hno. right. exact Hin.
Qed.

Lemma listenersOf_In ty f t : In f (listenersOf ty t) <-> In (ty, f) t.
Proof.
  unfold listenersOf. rewrite in_map_iff. split.
  - intros [[ty' f'] [Hf Hin]]. simpl in Hf. subst f'.
    apply filter_In in Hin. destruct Hin as [Hin Hty]. simpl in Hty.
    apply eventType_eqb_eq in Hty. subst ty'. exact Hin.
  - intros Hin. exists (ty, f). split; [reflexivity|].
    apply filter_In. split; [exact Hin|].
    apply eventType_eqb_eq. reflexivity.
Qed.

Lemma listenersOf_app ty t1 t2 :
  listenersOf ty (t1 ++ t2) = listenersOf ty t1 ++ listenersOf ty t2.
Proof. unfold listenersOf. rewrite filter_app, map_app. reflexivity. Qed.

Lemma listenersOf_remove_keyup f t :
  listenersOf KeyDown (removeEventListener KeyUp f t) = listenersOf KeyDown t.
Proof.
  unfold listenersOf, removeEventListener.
  induction t as [|[ty g] t IH]; [reflexivity|].
  destruct ty; simpl.
  - f_equal. exact IH.
  - destruct (entry_eqb (KeyUp, f) (KeyUp, g)); simpl; exact IH.
Qed.

Lemma listenersOf_closures (mk : nat -> Listener) (ids : list nat) :
  listenersOf KeyDown (map (fun id => (KeyDown, mk id)) ids) = map mk ids.
Proof.
  unfold listenersOf. induction ids as [|i ids IH]; [reflexivity|].
  simpl. f_equal. exact IH.
Qed.

Lemma filter_isClosure_StartInput (ids : list nat) :
  filter isClosure (map StartInput ids) = map StartInput ids.
Proof.
  induction ids as [|i ids IH]; [reflexivity|]. simpl. f_equal. exact IH.
Qed.

Lemma map_const_repeat {A B} (x : B) (l : list A) :
  map (fun _ => x) l = repeat x (List.length l).
Proof. induction l as [|a l IH]; simpl; [reflexivity | f_equal; exact IH]. Qed.

Lemma tableKeeps_refl t : tableKeeps t t.
Proof. intros e Hin _. exact Hin. Qed.

Lemma tableKeeps_trans t1 t2 t3 :
  tableKeeps t1 t2 -> tableKeeps t2 t3 -> tableKeeps t1 t3.
Proof. intros H12 H23 e Hin Hne. apply H23; [apply H12|]; assumption. Qed.

Lemma tableKeeps_add ty f t : tableKeeps t (addEventListener ty f t).
Proof. intros e Hin _. apply addEventListener_keeps. exact Hin. Qed.

Lemma tableKeeps_remove_input t :
  tableKeeps t (removeEventListener KeyUp Input t).
Proof. intros e Hin Hne. apply removeEventListener_keeps; assumption. Qed.

Lemma tableKnown_add_input c ty t :
  tableKnown c t -> tableKnown c (addEventListener ty Input t).
Proof.
  intros Hk ty' id [Hin | Hin]; apply addEventListener_inv in Hin;
    destruct Hin as [Hin | Heq]; try discriminate; apply Hk; auto.
Qed.

Lemma tableKnown_remove c ty f t :
  tableKnown c t -> tableKnown c (removeEventListener ty f t).
Proof.
  intros Hk ty' id [Hin | Hin]; apply removeEventListener_inv in Hin;
    apply Hk; auto.
Qed.

Lemma tableKnown_add_closure c mk t :
  mk = StartInput \/ mk = GameoverInput ->
  tableKnown c t ->
  tableKnown (S c) (addEventListener KeyDown (mk c) t).
Proof.
  intros Hmk Hk ty id Hin.
  assert (Hold : forall ty' id',
            In (ty', StartInput id') t \/ In (ty', GameoverInput id') t ->
            ty' = KeyDown /\ id' < S c).
  { intros ty' id' H'. destruct (Hk ty' id' H'). split; [assumption | lia]. }
  destruct Hin as [Hin | Hin]; apply addEventListener_inv in Hin;
    destruct Hin as [Hin | Heq]; try (apply Hold; auto; fail);
    destruct Hmk as [-> | ->]; try discriminate;
    injection Heq as Hty Hid; subst; (split; [reflexivity | lia]).
Qed.

Lemma tableKnown_fresh c mk ty t :
  mk = StartInput \/ mk = GameoverInput ->
  tableKnown c t -> ~ In (ty, mk c) t.
Proof.
  intros Hmk Hk Hin.
  assert (c < c); [|lia].
  destruct Hmk as [-> | ->]; apply (Hk ty c); auto.
Qed.

(** ** The leaves of the call tree *)

Section LeavesFacts.

Context {ER PR : Type}.

Lemma filter_skip {A} (f : A -> bool) (a : A) (l : list A) :
  f a = false -> filter f (a :: l) = filter f l.
Proof. intros Hf. simpl. rewrite Hf. reflexivity. Qed.

Lemma leavesOf_cons (e : Ev ER PR) (l : list (Ev ER PR)) :
  leavesOf (e :: l) = leaves e ++ leavesOf l.
Proof. reflexivity. Qed.

Lemma leavesOf_app (l1 l2 : list (Ev ER PR)) :
  leavesOf (l1 ++ l2) = leavesOf l1 ++ leavesOf l2.
Proof. apply flat_map_app. Qed.

Lemma leaves_Call (f : Fn) (body : list (Ev ER PR)) :
  leaves (Call f body) = leavesOf body.
Proof. reflexivity. Qed.

Lemma leaves_of_sprites (enemies : list (Enemy ER)) :
  leavesOf (map (@EnemyRender ER PR) enemies) = map EnemyRender enemies.
Proof.
  induction enemies as [|e es IH]; [reflexivity|].
  simpl map. rewrite leavesOf_cons, IH. reflexivity.
Qed.

Lemma requests_of_sprites (enemies : list (Enemy ER)) :
  filter isRequest (map (@EnemyRender ER PR) enemies) = [].
Proof. induction enemies as [|e es IH]; [reflexivity | exact IH]. Qed.

(** [render] asks for no animation frame, whatever the phase. *)
Lemma requests_in_scene (s : State ER PR) :
  filter isRequest
    (leavesOf (ClearRect 0%float 0%float canvas_width canvas_height
               :: scene s)) = [].
Proof.
  rewrite leavesOf_cons, filter_app.
  replace (filter isRequest
             (leaves (ClearRect 0%float 0%float canvas_width canvas_height)))
    with (@nil (Ev ER PR)) by reflexivity.
  rewrite app_nil_l.
  unfold scene. destruct (gameStatus s).
  - vm_compute. reflexivity.
  - rewrite leavesOf_app, filter_app.
    replace (filter isRequest (leavesOf (board [])))
      with (@nil (Ev ER PR)) by (vm_compute; reflexivity).
    rewrite app_nil_l.
    rewrite leavesOf_cons, leaves_Call, leavesOf_app, leaves_of_sprites.
    replace (leavesOf (@nil (Ev ER PR))) with (@nil (Ev ER PR)) by reflexivity.
    rewrite app_nil_r, filter_app, requests_of_sprites.
    reflexivity.
  - vm_compute. reflexivity.
Qed.

(** The requests made in a call of [main] are those made inside its call
    of [update], those made inside its call of [render], and its own. *)
Lemma requests_of_main (now dt : number) (inUpdate inRender : list (Ev ER PR)) :
  filter isRequest
    (leavesOf
       [Call Fmain
          [ReadDateNow now;
           Call (Fupdate dt) inUpdate;
           Call Frender inRender;
           AssignLastTime now;
           RequestAnimationFrame]])
  = filter isRequest (leavesOf inUpdate)
    ++ filter isRequest (leavesOf inRender)
    ++ [RequestAnimationFrame].
Proof.
  rewrite leavesOf_cons, leaves_Call.
  replace (leavesOf (@nil (Ev ER PR))) with (@nil (Ev ER PR)) by reflexivity.
  rewrite app_nil_r.
  rewrite leavesOf_cons, leavesOf_cons, leaves_Call, leavesOf_cons, leaves_Call.
  rewrite !filter_app. reflexivity.
Qed.

End LeavesFacts.

Section Facts.

Context {ER PR : Type} `{app : AppJs ER PR}.

Local Abbreviation Script := (M ER PR).

(** ** The monad's loops *)

Lemma forEach_emit {A} (g : A -> list (Ev ER PR)) (f : A -> Script unit)
    (l : list A) :
  (forall a s, f a s = Some (tt, s, g a)) ->
  forall s, forEach l f s = Some (tt, s, flat_map g l).
Proof.
  intros Hf. induction l as [|a l IH]; intros s; simpl.
  - reflexivity.
  - unfold bind. rewrite Hf, IH. reflexivity.
Qed.

Lemma set_player_same (s : State ER PR) : set_player (player s) s = s.
Proof. destruct s; reflexivity. Qed.

(** ** The collision loop *)

Lemma collisionStep_eq (enemy : Enemy ER) (s : State ER PR) :
  collisionStep enemy s = Some (tt, set_player (hit (player s) enemy) s, []).
Proof.
  unfold collisionStep, hit, bind, gets.
  destruct (collides (player s) enemy).
  - reflexivity.
  - simpl. rewrite set_player_same. reflexivity.
Qed.

Lemma forEach_collisionStep (enemies : list (Enemy ER)) :
  forall s : State ER PR,
    forEach enemies collisionStep s
    = Some (tt, set_player (afterEnemies enemies (player s)) s, []).
Proof.
  induction enemies as [|e es IH]; intros s; simpl.
  - rewrite set_player_same. reflexivity.
  - unfold bind. rewrite collisionStep_eq, IH. reflexivity.
Qed.

Lemma hit_start (r : PR) (enemy : Enemy ER) :
  hit (mkPlayer 200%float 380%float r) enemy = mkPlayer 200%float 380%float r.
Proof. unfold hit. destruct (collides _ _); reflexivity. Qed.

Lemma afterEnemies_start (enemies : list (Enemy ER)) (r : PR) :
  afterEnemies enemies (mkPlayer 200%float 380%float r)
  = mkPlayer 200%float 380%float r.
Proof.
  induction enemies as [|e es IH]; simpl.
  - reflexivity.
  - unfold afterEnemies in *. simpl. rewrite hit_start. exact IH.
Qed.

Lemma afterEnemies_miss (enemies : list (Enemy ER)) (p : Player PR) :
  (forall enemy, In enemy enemies -> collides p enemy = false) ->
  afterEnemies enemies p = p.
Proof.
  induction enemies as [|e es IH]; intros Hmiss.
  - reflexivity.
  - unfold afterEnemies in *. simpl. unfold hit at 2.
    rewrite (Hmiss e (or_introl eq_refl)).
    apply IH. intros e' He'. apply Hmiss. right. exact He'.
Qed.

Lemma afterEnemies_hit (enemies : list (Enemy ER)) (p : Player PR) :
  (exists enemy, In enemy enemies /\ collides p enemy = true) ->
  afterEnemies enemies p = startPosition p.
Proof.
  induction enemies as [|e es IH]; intros [e0 [Hin Hc]].
  - destruct Hin.
  - unfold afterEnemies in *. simpl.
    destruct (collides p e) eqn:Hpe.
    + unfold hit at 2. rewrite Hpe. apply (afterEnemies_start es).
    + unfold hit at 2. rewrite Hpe. apply IH.
      destruct Hin as [-> | Hin]; [congruence|].
      exists e0. split; assumption.
Qed.

(** ** [render] only draws *)

Lemma forRange_tiles (overlay : list (Ev ER PR)) (s : State ER PR) :
  forRange numRows (fun row =>
    forRange numCols (fun col => emit (drawTile row col :: overlay))) s
  = Some (tt, s, board overlay).
Proof.
  unfold forRange, board.
  apply (forEach_emit
           (fun row => flat_map (fun col => drawTile row col :: overlay)
                                (seq 0 numCols))).
  intros row s'.
  apply (forEach_emit (fun col => drawTile row col :: overlay)).
  intros col s''. reflexivity.
Qed.

Lemma renderEntities_eq (s : State ER PR) :
  renderEntities s
  = Some (tt, s,
          [Call FrenderEntities
             (map EnemyRender (allEnemies s) ++ [PlayerRender (player s)])]).
Proof.
  unfold renderEntities, call, bind, gets.
  rewrite (forEach_emit (fun enemy => [EnemyRender enemy]))
    by (intros; reflexivity).
  simpl. rewrite flat_map_concat_map, <- (map_map EnemyRender (fun e => [e])).
  rewrite <- flat_map_concat_map.
  replace (flat_map (fun e : Ev ER PR => [e]) (map EnemyRender (allEnemies s)))
    with (map (@EnemyRender ER PR) (allEnemies s)).
  - reflexivity.
  - induction (map EnemyRender (allEnemies s)) as [|e l IH]; simpl;
      [reflexivity | rewrite <- IH; reflexivity].
Qed.

Lemma render_eq (s : State ER PR) :
  render s
  = Some (tt, s,
          [Call Frender
             (ClearRect 0%float 0%float canvas_width canvas_height :: scene s)]).
Proof.
  unfold render, scene, call, bind, gets.
  change (emit [ClearRect 0%float 0%float canvas_width canvas_height] s)
    with (Some (tt, s, [@ClearRect ER PR 0%float 0%float canvas_width canvas_height])).
  cbv beta iota.
  destruct (gameStatus s).
  - rewrite forRange_tiles. reflexivity.
  - rewrite (forRange_tiles []), renderEntities_eq. reflexivity.
  - rewrite forRange_tiles. reflexivity.
Qed.

(** ** [checkCollisions] and [update], branch by branch *)

Lemma checkCollisions_eq (this_init : Script unit) (s : State ER PR) :
  checkCollisions this_init s
  = let p := afterEnemies (allEnemies s) (player s) in
    if PrimFloat.ltb (player_y p) 0%float then
      match this_init (set_gameStatus GameOver
                         (set_player (startPosition p) s)) with
      | Some (_, s', l) =>
          Some (tt, s', [Call FcheckCollisions (AssignGameStatus GameOver :: l)])
      | None => None
      end
    else Some (tt, set_player p s, [Call FcheckCollisions []]).
Proof.
  unfold checkCollisions, call, bind, gets.
  rewrite forEach_collisionStep. simpl.
  destruct (PrimFloat.ltb _ _); simpl.
  - destruct (this_init _) as [[[[] s'] l]|]; reflexivity.
  - reflexivity.
Qed.

Lemma update_waiting (this_init : Script unit) (dt : number)
    (s : State ER PR) :
  gameStatus s <> InGame ->
  update this_init dt s
  = Some (tt, waitingUpdate (closureOf (gameStatus s)) s,
          [Call (Fupdate dt) []]).
Proof.
  intros Hg. unfold update, call, bind, gets.
  destruct (gameStatus s); [reflexivity | congruence | reflexivity].
Qed.

Lemma update_InGame (this_init : Script unit) (dt : number)
    (s : State ER PR) :
  gameStatus s = InGame ->
  update this_init dt s
  = match checkCollisions this_init (enteringCollisions dt s) with
    | Some (_, s', l) =>
        Some (tt, s', [Call (Fupdate dt) (Call (FupdateEntities dt) [] :: l)])
    | None => None
    end.
Proof.
  intros Hg. unfold update, call, bind, gets. rewrite Hg. simpl.
  change (set_player _ _) with (enteringCollisions dt s).
  destruct (checkCollisions _ _) as [[[[] s'] l]|]; reflexivity.
Qed.

(** ** [main] and [init], branch by branch *)

Lemma mainWith_waiting (this_init : Script unit) (s : State ER PR) :
  gameStatus s <> InGame ->
  mainWith this_init s
  = Some (tt, waitingFrame (closureOf (gameStatus s)) s,
          [Call Fmain
             (mainChildren (dateNow (clockReads s)) (lastTime s) []
                           (clearAll :: scene s))]).
Proof.
  intros Hg. unfold mainWith, call, bind, gets, dateNowCall.
  cbv beta iota zeta.
  rewrite update_waiting by exact Hg.
  rewrite render_eq.
  destruct s as [g last p enemies t c q k]. cbn [gameStatus] in Hg.
  destruct g; [reflexivity | congruence | reflexivity].
Qed.

Lemma mainWith_InGame (this_init : Script unit) (s : State ER PR) :
  gameStatus s = InGame ->
  mainWith this_init s
  = match checkCollisions this_init
            (enteringCollisions (frameDelta s)
               (set_clockReads (S (clockReads s)) s)) with
    | Some (_, s1, l) =>
        Some (tt,
              set_rafQueue (S (rafQueue s1))
                (set_lastTime (Some (dateNow (clockReads s))) s1),
              [Call Fmain
                 (mainChildren (dateNow (clockReads s)) (lastTime s)
                    (Call (FupdateEntities (frameDelta s)) [] :: l)
                    (clearAll :: scene s1))])
    | None => None
    end.
Proof.
  intros Hg. unfold mainWith, call, bind, gets, dateNowCall.
  cbv beta iota zeta.
  rewrite update_InGame by exact Hg.
  change ((dateNow (clockReads s) - toNumber (lastTime s)) / 1000)%float
    with (frameDelta s).
  destruct (checkCollisions _ _) as [[[[] s1] l]|]; [|reflexivity].
  rewrite render_eq. reflexivity.
Qed.

Lemma initWith_eq (m : Script unit) (s : State ER PR) :
  initWith m s
  = match m (set_lastTime (Some (dateNow (clockReads s)))
               (set_clockReads (S (clockReads s)) s)) with
    | Some (_, s', l) =>
        Some (tt, s',
              [Call Finit
                 (ReadDateNow (dateNow (clockReads s))
                  :: AssignLastTime (dateNow (clockReads s)) :: l)])
    | None => None
    end.
Proof.
  unfold initWith, call, dateNowCall, assignLastTime, modify, emit, bind.
  cbv beta iota zeta.
  destruct (m _) as [[[[] s'] l]|]; reflexivity.
Qed.

Lemma init_waiting (fuel : nat) (s : State ER PR) :
  gameStatus s <> InGame ->
  init (S fuel) s
  = Some (tt, afterInit s,
          [Call Finit
             [ReadDateNow (dateNow (clockReads s));
              AssignLastTime (dateNow (clockReads s));
              Call Fmain
                (mainChildren (dateNow (S (clockReads s)))
                   (Some (dateNow (clockReads s))) []
                   (clearAll :: scene s))]]).
Proof.
  intros Hg. unfold init. rewrite initWith_eq. simpl main.
  rewrite mainWith_waiting by exact Hg.
  reflexivity.
Qed.

(** [checkCollisions] with the engine's own [init]: it returns, and the
    call of [init] it makes when the player has reached the top runs one
    whole frame in the phase ["game over"]. *)
Lemma checkCollisions_init (fuel : nat) (s : State ER PR) :
  checkCollisions (init (S fuel)) s
  = let p := afterEnemies (allEnemies s) (player s) in
    if PrimFloat.ltb (player_y p) 0%float then
      Some (tt, afterInit (wonState p s),
            [Call FcheckCollisions
               [AssignGameStatus GameOver;
                Call Finit
                  [ReadDateNow (dateNow (clockReads s));
                   AssignLastTime (dateNow (clockReads s));
                   Call Fmain
                     (mainChildren (dateNow (S (clockReads s)))
                        (Some (dateNow (clockReads s))) []
                        (clearAll :: board gameOverOverlay))]]])
    else Some (tt, set_player p s, [Call FcheckCollisions []]).
Proof.
  rewrite checkCollisions_eq. cbv zeta.
  destruct (PrimFloat.ltb _ _); [|reflexivity].
  fold (wonState (afterEnemies (allEnemies s) (player s)) s).
  rewrite init_waiting by (simpl; discriminate).
  reflexivity.
Qed.

(** ** Numbers: a number that is at least 0 is not less than 0 *)

Lemma not_lt_of_ge_zero (y : number) :
  PrimFloat.leb 0%float y = true -> PrimFloat.ltb y 0%float = false.
Proof.
  rewrite FloatAxioms.leb_spec, FloatAxioms.ltb_spec. unfold SFleb, SFltb.
  change (Prim2SF 0%float) with (S754_zero false).
  destruct (Prim2SF y) as [sg | sg | | sg m e]; simpl;
    try congruence; destruct sg; congruence.
Qed.

Lemma some_enemy_or_none (enemies : list (Enemy ER)) (p : Player PR) :
  (exists enemy, In enemy enemies /\ collides p enemy = true) \/
  (forall enemy, In enemy enemies -> collides p enemy = false).
Proof.
  induction enemies as [|e es [[e0 [Hin Hc]] | Hnone]].
  - right. intros e [].
  - left. exists e0. split; [right; exact Hin | exact Hc].
  - destruct (collides p e) eqn:Hpe.
    + left. exists e. split; [left; reflexivity | exact Hpe].
    + right. intros e' [<- | Hin]; [exact Hpe | apply Hnone; exact Hin].
Qed.

(** ** The claims about collisions *)

(** C7. The test made for each enemy is the overlap of two axis-aligned
    rectangles, [player.x < enemy.x + 60 && player.x + 37 > enemy.x &&
    player.y < enemy.y + 25 && 30 + player.y > enemy.y]; the round of the
    loop for that enemy puts the player on the start tile exactly when the
    test holds; with the player at (200, 380) an enemy at (180, 380) is
    detected and an enemy at (400, 380) is not. *)
Theorem collides_is_rectangle_overlap :
  (forall (p : Player PR) (enemy : Enemy ER),
     collides p enemy = true <->
     PrimFloat.ltb (player_x p) (enemy_x enemy + 60)%float = true /\
     gtb (player_x p + 37)%float (enemy_x enemy) = true /\
     PrimFloat.ltb (player_y p) (enemy_y enemy + 25)%float = true /\
     gtb (30 + player_y p)%float (enemy_y enemy) = true) /\
  (forall (enemy : Enemy ER) (s : State ER PR),
     collisionStep enemy s
     = Some (tt,
             (if collides (player s) enemy
              then set_player (startPosition (player s)) s
              else s),
             [])) /\
  (forall (r : PR) (r' : ER),
     collides (mkPlayer 200%float 380%float r)
              (mkEnemy 180%float 380%float r') = true /\
     collides (mkPlayer 200%float 380%float r)
              (mkEnemy 400%float 380%float r') = false).
Proof.
  split; [|split].
  - intros p enemy. unfold collides.
    rewrite !andb_true_iff. tauto.
  - intros enemy s. rewrite collisionStep_eq. unfold hit.
    destruct (collides (player s) enemy);
      [reflexivity | rewrite set_player_same; reflexivity].
  - intros r r'. split; reflexivity.
Qed.

(** C1, as the code has it. When [checkCollisions] is called during an
    ["in game"] update with the player's y below 0, the player ends at
    (200, 380); the phase becomes ["game over"] when no enemy's hitbox
    overlaps the player's, and stays ["in game"] when one does: the
    collision loop runs first and the win test reads the y it left. *)
Theorem top_reached_after_collision_loop (fuel : nat) (s : State ER PR) :
  gameStatus s = InGame ->
  PrimFloat.ltb (player_y (player s)) 0%float = true ->
  exists s' l,
    checkCollisions (init (S fuel)) s = Some (tt, s', l) /\
    player_x (player s') = 200%float /\
    player_y (player s') = 380%float /\
    ((forall enemy, In enemy (allEnemies s) ->
        collides (player s) enemy = false) ->
     gameStatus s' = GameOver) /\
    ((exists enemy, In enemy (allEnemies s) /\
        collides (player s) enemy = true) ->
     gameStatus s' = InGame).
Proof.
  intros Hg Hy. rewrite checkCollisions_eq. cbv zeta.
  destruct (some_enemy_or_none (allEnemies s) (player s)) as [Hhit | Hmiss].
  - rewrite (afterEnemies_hit _ _ Hhit).
    change (PrimFloat.ltb (player_y (startPosition (player s))) 0%float)
      with false. cbv iota.
    eexists. eexists. split; [reflexivity|].
    repeat split.
    + intros Hnone. destruct Hhit as [e [Hin Hc]].
      rewrite (Hnone e Hin) in Hc. discriminate.
    + intros _. exact Hg.
  - rewrite (afterEnemies_miss _ _ Hmiss), Hy.
    rewrite init_waiting by (simpl; discriminate).
    eexists. eexists. split; [reflexivity|].
    repeat split.
    intros [e [Hin Hc]]. rewrite (Hmiss e Hin) in Hc. discriminate.
Qed.

(** C3. During an ["in game"] update, when the hitbox of some enemy
    overlaps the player's, [checkCollisions] puts the player at exactly
    (200, 380), changes nothing else and leaves the phase ["in game"]; the
    same holds for the whole [update], the overlap being tested on the
    entities as [updateEntities] left them. In the phases ["new game"] and
    ["game over"], [update] calls neither [updateEntities] nor
    [checkCollisions] (its node of the call tree has no child, whatever
    [this.init] is), while in the phase ["in game"] it calls each once. *)
Theorem collision_resets_player (fuel : nat) (dt : number) (s : State ER PR) :
  (gameStatus s = InGame ->
   (exists enemy, In enemy (allEnemies s) /\
      collides (player s) enemy = true) ->
   checkCollisions (init (S fuel)) s
   = Some (tt, set_player (startPosition (player s)) s,
           [Call FcheckCollisions []]) /\
   player_x (startPosition (player s)) = 200%float /\
   player_y (startPosition (player s)) = 380%float /\
   gameStatus (set_player (startPosition (player s)) s) = InGame) /\
  (gameStatus s = InGame ->
   (exists enemy, In enemy (allEnemies (enteringCollisions dt s)) /\
      collides (player (enteringCollisions dt s)) enemy = true) ->
   exists s',
     update (init (S fuel)) dt s
     = Some (tt, s',
             [Call (Fupdate dt)
                [Call (FupdateEntities dt) []; Call FcheckCollisions []]]) /\
     player_x (player s') = 200%float /\
     player_y (player s') = 380%float /\
     gameStatus s' = InGame) /\
  (gameStatus s <> InGame ->
   forall this_init : Script unit,
     update this_init dt s
     = Some (tt, waitingUpdate (closureOf (gameStatus s)) s,
             [Call (Fupdate dt) []])) /\
  (gameStatus s = InGame ->
   exists s' l,
     update (init (S fuel)) dt s
     = Some (tt, s',
             [Call (Fupdate dt)
                [Call (FupdateEntities dt) []; Call FcheckCollisions l]])).
Proof.
  assert (Hreset : forall s0 : State ER PR,
             (exists enemy, In enemy (allEnemies s0) /\
                collides (player s0) enemy = true) ->
             checkCollisions (init (S fuel)) s0
             = Some (tt, set_player (startPosition (player s0)) s0,
                     [Call FcheckCollisions []])).
  { intros s0 Hhit. rewrite checkCollisions_eq. cbv zeta.
    rewrite (afterEnemies_hit _ _ Hhit). reflexivity. }
  repeat split.
  - apply Hreset. assumption.
  - assumption.
  - intros Hg Hhit. rewrite (update_InGame _ _ _ Hg), (Hreset _ Hhit).
    eexists. split; [reflexivity|]. repeat split. exact Hg.
  - intros Hg this_init. apply update_waiting. exact Hg.
  - intros Hg. rewrite (update_InGame _ _ _ Hg), checkCollisions_eq. cbv zeta.
    destruct (PrimFloat.ltb _ _).
    + rewrite init_waiting by (simpl; discriminate).
      eexists. eexists. reflexivity.
    + eexists. eexists. reflexivity.
Qed.

(** C9. [checkCollisions] returns and never changes [allEnemies]; when no
    enemy's hitbox overlaps the player's and the player's y is at least 0,
    it changes nothing at all: the player, the phase and [lastTime] are as
    before, and neither [init] nor anything else is called. *)
Theorem checkCollisions_frame (fuel : nat) (s : State ER PR) :
  exists s' l,
    checkCollisions (init (S fuel)) s = Some (tt, s', l) /\
    allEnemies s' = allEnemies s /\
    ((forall enemy, In enemy (allEnemies s) ->
        collides (player s) enemy = false) ->
     PrimFloat.leb 0%float (player_y (player s)) = true ->
     s' = s /\ l = [Call FcheckCollisions []]).
Proof.
  rewrite checkCollisions_eq. cbv zeta.
  destruct (some_enemy_or_none (allEnemies s) (player s)) as [Hhit | Hmiss].
  - rewrite (afterEnemies_hit _ _ Hhit).
    change (PrimFloat.ltb (player_y (startPosition (player s))) 0%float)
      with false. cbv iota.
    eexists. eexists. split; [reflexivity|]. split; [reflexivity|].
    intros Hnone. destruct Hhit as [e [Hin Hc]].
    rewrite (Hnone e Hin) in Hc. discriminate.
  - rewrite (afterEnemies_miss _ _ Hmiss).
    destruct (PrimFloat.ltb (player_y (player s)) 0%float) eqn:Hy.
    + rewrite init_waiting by (simpl; discriminate).
      eexists. eexists. split; [reflexivity|]. split; [reflexivity|].
      intros _ Hge. apply not_lt_of_ge_zero in Hge. congruence.
    + eexists. eexists. split; [reflexivity|]. split; [reflexivity|].
      intros _ _. split; [apply set_player_same | reflexivity].
Qed.

(** ** The claims about the frame *)

(** C6. In every phase, the first thing a call of [render] does to the
    canvas is to clear all of it (505 by 606, from the origin); the scene of
    the phase comes after, and the state is not touched. *)
Theorem render_clears_first (s : State ER PR) :
  render s
  = Some (tt, s,
          [Call Frender
             (ClearRect 0%float 0%float 505%float 606%float :: scene s)]).
Proof.
  rewrite render_eq. unfold clearAll, canvas_width, canvas_height.
  reflexivity.
Qed.

Lemma main_returns (fuel : nat) (s : State ER PR) :
  exists s' l, main (S (S fuel)) s = Some (tt, s', l).
Proof.
  change (main (S (S fuel))) with (mainWith (init (S fuel))).
  destruct (gameStatus s) eqn:Hg.
  - rewrite mainWith_waiting by congruence. eexists. eexists. reflexivity.
  - rewrite mainWith_InGame by exact Hg.
    rewrite checkCollisions_init. cbv zeta.
    destruct (PrimFloat.ltb _ _); eexists; eexists; reflexivity.
  - rewrite mainWith_waiting by congruence. eexists. eexists. reflexivity.
Qed.

(** The node [update] leaves in the call tree. *)
Lemma update_node (this_init : Script unit) (dt : number)
    (s s1 : State ER PR) (lu : list (Ev ER PR)) :
  update this_init dt s = Some (tt, s1, lu) ->
  exists inUpdate, lu = [Call (Fupdate dt) inUpdate].
Proof.
  unfold update, call. intros Hrun.
  match type of Hrun with
  | match ?m with _ => _ end = _ =>
      destruct m as [[[u s2] body]|]; [|discriminate Hrun]
  end.
  injection Hrun as _ _ <-. exists body. reflexivity.
Qed.

(** [main] in terms of its call of [update]: [render] changes nothing, and
    what [main] itself does to the state [update] left is to assign
    [lastTime] and to queue itself. *)
Lemma mainWith_eq (this_init : Script unit) (s : State ER PR) :
  mainWith this_init s
  = match update this_init (frameDelta s)
            (set_clockReads (S (clockReads s)) s) with
    | Some (_, s1, lu) =>
        Some (tt,
              set_rafQueue (S (rafQueue s1))
                (set_lastTime (Some (dateNow (clockReads s))) s1),
              [Call Fmain
                 (ReadDateNow (dateNow (clockReads s))
                  :: lu
                  ++ [Call Frender (clearAll :: scene s1);
                      AssignLastTime (dateNow (clockReads s));
                      RequestAnimationFrame])])
    | None => None
    end.
Proof.
  unfold mainWith, call, bind, gets, dateNowCall. cbv beta iota zeta.
  change ((dateNow (clockReads s) - toNumber (lastTime s)) / 1000)%float
    with (frameDelta s).
  destruct (update _ _ _) as [[[[] s1] lu]|]; [|reflexivity].
  rewrite render_eq. reflexivity.
Qed.

(** Every request made inside a call of [update] has queued a callback:
    none in a frame that does not win, the one of the call of [main] made
    through [init] in a frame that wins. *)
Lemma update_requests (fuel : nat) (dt : number) (s s1 : State ER PR)
    (inUpdate : list (Ev ER PR)) :
  update (init fuel) dt s = Some (tt, s1, [Call (Fupdate dt) inUpdate]) ->
  rafQueue s1
  = rafQueue s + List.length (filter isRequest (leavesOf inUpdate)).
Proof.
  intros Hrun.
  assert (Hwait : gameStatus s <> InGame ->
            rafQueue s1
            = rafQueue s
              + List.length (filter isRequest (leavesOf inUpdate))).
  { intros Hg. rewrite update_waiting in Hrun by exact Hg.
    injection Hrun as <- <-. simpl. lia. }
  destruct (gameStatus s) eqn:Hg;
    [apply Hwait; discriminate | | apply Hwait; discriminate].
  clear Hwait. rewrite update_InGame in Hrun by exact Hg.
  rewrite checkCollisions_eq in Hrun. cbv zeta in Hrun.
  destruct (PrimFloat.ltb _ _).
  - destruct fuel as [|fuel].
    + unfold init in Hrun. rewrite initWith_eq in Hrun. discriminate Hrun.
    + rewrite init_waiting in Hrun by (simpl; discriminate).
      injection Hrun as <- <-.
      match goal with
      | |- _ = _ + ?n => replace n with 1 by (vm_compute; reflexivity)
      end.
      simpl. lia.
  - injection Hrun as <- <-. simpl. lia.
Qed.

(** C5. A call of the frame callback returns, and every call of it that
    returns, at whatever depth, has done this and nothing else itself: read
    the clock ([now]), called [update] once with
    [dt = (now - lastTime) / 1000], called [render] once on the state
    [update] left (which [render] does not change), assigned [now] to
    [lastTime], and queued itself once for the next animation frame: the
    state it returns is the state [update] left with [lastTime] assigned
    and one more callback in the queue. The queue has grown by one callback
    for each request in the call tree of the call, so by exactly one unless
    [update] has called [main] again through [init]. *)
Theorem main_one_update_one_render_one_request (s : State ER PR) :
  (forall fuel, exists s' l, main (S (S fuel)) s = Some (tt, s', l)) /\
  (forall fuel s' l,
     main fuel s = Some (tt, s', l) ->
     let now := dateNow (clockReads s) in
     let dt := ((now - toNumber (lastTime s)) / 1000)%float in
     exists inUpdate inRender,
       l = [Call Fmain
              [ReadDateNow now;
               Call (Fupdate dt) inUpdate;
               Call Frender inRender;
               AssignLastTime now;
               RequestAnimationFrame]] /\
       lastTime s' = Some now /\
       (exists s1,
          update (init (Nat.pred fuel)) dt
            (set_clockReads (S (clockReads s)) s)
          = Some (tt, s1, [Call (Fupdate dt) inUpdate]) /\
          render s1 = Some (tt, s1, [Call Frender inRender]) /\
          s' = set_rafQueue (S (rafQueue s1)) (set_lastTime (Some now) s1) /\
          rafQueue s1
          = rafQueue s
            + List.length (filter isRequest (leavesOf inUpdate))) /\
       rafQueue s'
       = rafQueue s + List.length (filter isRequest (leavesOf l)) /\
       (filter isRequest (leavesOf inUpdate) = [] ->
        rafQueue s' = S (rafQueue s))).
Proof.
  split; [intros fuel; apply main_returns|].
  intros [|fuel] s' l Hrun; [discriminate|].
  cbv zeta. simpl main in Hrun.
  change (initWith (main fuel)) with (init fuel) in Hrun.
  rewrite mainWith_eq in Hrun. unfold frameDelta in Hrun.
  destruct (update (init fuel) _ _) as [[[[] s1] lu]|] eqn:Hup;
    [|discriminate Hrun].
  destruct (update_node _ _ _ _ _ Hup) as [inUpdate ->].
  injection Hrun as <- <-.
  pose proof (update_requests _ _ _ _ _ Hup) as Hq. simpl rafQueue in Hq.
  exists inUpdate, (clearAll :: scene s1).
  split; [reflexivity|]. split; [reflexivity|]. split; [|split].
  - exists s1. split; [exact Hup|]. split; [apply render_eq|].
    split; [reflexivity | exact Hq].
  - change ([Call (Fupdate ?d) inUpdate] ++ ?rest)
      with (Call (Fupdate d) inUpdate :: rest).
    rewrite requests_of_main. unfold clearAll. rewrite requests_in_scene.
    rewrite !length_app. simpl. rewrite Hq. lia.
  - intros Hnone. simpl. rewrite Hq, Hnone. simpl. lia.
Qed.

Lemma main_waiting (fuel : nat) (s : State ER PR) :
  gameStatus s <> InGame ->
  main (S fuel) s
  = Some (tt, waitingFrame (closureOf (gameStatus s)) s,
          [Call Fmain
             (mainChildren (dateNow (clockReads s)) (lastTime s) []
                           (clearAll :: scene s))]).
Proof. intros Hg. simpl main. apply mainWith_waiting. exact Hg. Qed.

(** While the phase waits for Enter, every queued call of [main] queues
    itself again and leaves the phase as it is. *)
Lemma waiting_frames (fuel : nat) (calls : list nat) :
  forall s : State ER PR,
    gameStatus s <> InGame ->
    exists s' l,
      forEach calls (fun _ => main (S fuel)) s = Some (tt, s', l) /\
      gameStatus s' = gameStatus s /\
      rafQueue s' = List.length calls + rafQueue s /\
      List.length l = List.length calls /\
      player s' = player s /\
      allEnemies s' = allEnemies s.
Proof.
  induction calls as [|c calls IH]; intros s Hg.
  - exists s, []. repeat split.
  - cbn [forEach]. unfold bind.
    rewrite main_waiting by exact Hg.
    destruct (IH (waitingFrame (closureOf (gameStatus s)) s))
      as [s' [l [Hrun [Hg' [Hq [Hl [Hp He]]]]]]]; [exact Hg|].
    rewrite Hrun. eexists. eexists.
    split; [reflexivity|].
    rewrite Hg', Hq, Hp, He. simpl. rewrite Hl.
    repeat split. lia.
Qed.

(** C8. When the collision loop leaves the player's y below 0,
    [checkCollisions] assigns ["game over"] and then calls [init]: [init]
    reads the clock and assigns it to [lastTime], then calls [main], which
    runs a whole frame of the phase ["game over"] and queues itself. The
    frame in which this happens therefore queues [main] twice, where a
    frame that does not reach the top queues it once; and from then on each
    animation frame runs every queued [main], each of which queues itself
    again, so the additional chain stays. *)
Theorem win_calls_init_again (fuel : nat) (s : State ER PR) :
  ((forall enemy, In enemy (allEnemies s) ->
      collides (player s) enemy = false) ->
   PrimFloat.ltb (player_y (player s)) 0%float = true ->
   let t1 := dateNow (clockReads s) in
   let t2 := dateNow (S (clockReads s)) in
   exists s' inRender,
     checkCollisions (init (S fuel)) s
     = Some (tt, s',
             [Call FcheckCollisions
                [AssignGameStatus GameOver;
                 Call Finit
                   [ReadDateNow t1;
                    AssignLastTime t1;
                    Call Fmain
                      [ReadDateNow t2;
                       Call (Fupdate ((t2 - t1) / 1000)%float) [];
                       Call Frender inRender;
                       AssignLastTime t2;
                       RequestAnimationFrame]]]]) /\
     gameStatus s' = GameOver /\
     lastTime s' = Some t2 /\
     rafQueue s' = S (rafQueue s)) /\
  (gameStatus s = InGame ->
   let s0 := enteringCollisions (frameDelta s)
               (set_clockReads (S (clockReads s)) s) in
   PrimFloat.ltb
     (player_y (afterEnemies (allEnemies s0) (player s0))) 0%float = true ->
   exists s' l,
     main (S (S fuel)) s = Some (tt, s', l) /\
     gameStatus s' = GameOver /\
     rafQueue s' = S (S (rafQueue s))) /\
  (gameStatus s = InGame ->
   let s0 := enteringCollisions (frameDelta s)
               (set_clockReads (S (clockReads s)) s) in
   PrimFloat.ltb
     (player_y (afterEnemies (allEnemies s0) (player s0))) 0%float = false ->
   exists s' l,
     main (S (S fuel)) s = Some (tt, s', l) /\
     gameStatus s' = InGame /\
     rafQueue s' = S (rafQueue s)) /\
  (gameStatus s <> InGame ->
   exists s' l,
     animationFrame (S fuel) s = Some (tt, s', l) /\
     gameStatus s' = gameStatus s /\
     List.length l = rafQueue s /\
     rafQueue s' = rafQueue s).
Proof.
  split; [|split; [|split]].
  - intros Hmiss Hy. cbv zeta. rewrite checkCollisions_init. cbv zeta.
    rewrite (afterEnemies_miss _ _ Hmiss), Hy.
    eexists. eexists. split; [reflexivity|]. repeat split.
  - intros Hg. cbv zeta. intros Hy.
    change (main (S (S fuel))) with (mainWith (init (S fuel))).
    rewrite mainWith_InGame by exact Hg.
    rewrite checkCollisions_init. cbv zeta. rewrite Hy.
    eexists. eexists. split; [reflexivity|]. repeat split.
  - intros Hg. cbv zeta. intros Hy.
    change (main (S (S fuel))) with (mainWith (init (S fuel))).
    rewrite mainWith_InGame by exact Hg.
    rewrite checkCollisions_init. cbv zeta. rewrite Hy.
    eexists. eexists. split; [reflexivity|]. split; [exact Hg | reflexivity].
  - intros Hg. unfold animationFrame, forRange, bind, gets, modify.
    destruct (waiting_frames fuel (seq 0 (rafQueue s)) (set_rafQueue 0 s) Hg)
      as [s' [l [Hrun [Hg' [Hq [Hl _]]]]]].
    rewrite Hrun. exists s', l. split; [reflexivity|].
    rewrite length_seq in Hq, Hl. simpl in Hq, Hg'.
    repeat split; [exact Hg' | exact Hl | lia].
Qed.

(** ** Listeners along a run *)

Lemma evolves_refl (s : State ER PR) : evolves s s.
Proof. split; [apply tableKeeps_refl | auto]. Qed.

Lemma evolves_trans (s1 s2 s3 : State ER PR) :
  evolves s1 s2 -> evolves s2 s3 -> evolves s1 s3.
Proof.
  intros [K12 C12] [K23 C23]. split.
  - eapply tableKeeps_trans; eassumption.
  - auto.
Qed.

(** Only the table and the count of closures matter. *)
Lemma evolves_same (s s1 s' : State ER PR) :
  listeners s1 = listeners s -> closures s1 = closures s ->
  evolves s1 s' -> evolves s s'.
Proof.
  unfold evolves, closuresKnown. intros -> ->. auto.
Qed.

Lemma evolves_unchanged (s s' : State ER PR) :
  listeners s' = listeners s -> closures s' = closures s -> evolves s s'.
Proof.
  intros Hl Hc. unfold evolves, closuresKnown. rewrite Hl, Hc.
  split; [apply tableKeeps_refl | auto].
Qed.

Lemma closureOf_cases (g : GameStatus) :
  closureOf g = StartInput \/ closureOf g = GameoverInput.
Proof. destruct g; simpl; auto. Qed.

Lemma evolves_waitingUpdate (mk : nat -> Listener) (s s' : State ER PR) :
  mk = StartInput \/ mk = GameoverInput ->
  listeners s'
  = addEventListener KeyDown (mk (closures s))
      (removeEventListener KeyUp Input (listeners s)) ->
  closures s' = S (closures s) ->
  evolves s s'.
Proof.
  intros Hmk Hl Hc. unfold evolves, closuresKnown. rewrite Hl, Hc. split.
  - eapply tableKeeps_trans;
      [apply tableKeeps_remove_input | apply tableKeeps_add].
  - intros Hk. apply tableKnown_add_closure; [exact Hmk|].
    apply tableKnown_remove. exact Hk.
Qed.

Lemma evolves_add_input (s s' : State ER PR) :
  listeners s' = addEventListener KeyUp Input (listeners s) ->
  closures s' = closures s ->
  evolves s s'.
Proof.
  intros Hl Hc. unfold evolves, closuresKnown. rewrite Hl, Hc. split.
  - apply tableKeeps_add.
  - apply tableKnown_add_input.
Qed.

Lemma main_evolves (fuel : nat) (s : State ER PR) :
  exists s' l, main (S (S fuel)) s = Some (tt, s', l) /\ evolves s s'.
Proof.
  change (main (S (S fuel))) with (mainWith (init (S fuel))).
  destruct (gameStatus s) eqn:Hg.
  - rewrite mainWith_waiting by congruence.
    eexists. eexists. split; [reflexivity|].
    apply (evolves_waitingUpdate (closureOf (gameStatus s)));
      [apply closureOf_cases | reflexivity | reflexivity].
  - rewrite mainWith_InGame by exact Hg.
    rewrite checkCollisions_init. cbv zeta.
    destruct (PrimFloat.ltb _ _).
    + eexists. eexists. split; [reflexivity|].
      apply (evolves_trans _
               (set_listeners (addEventListener KeyUp Input (listeners s)) s)).
      * apply evolves_add_input; reflexivity.
      * apply (evolves_waitingUpdate GameoverInput);
          [right; reflexivity | reflexivity | reflexivity].
    + eexists. eexists. split; [reflexivity|].
      apply evolves_add_input; reflexivity.
  - rewrite mainWith_waiting by congruence.
    eexists. eexists. split; [reflexivity|].
    apply (evolves_waitingUpdate (closureOf (gameStatus s)));
      [apply closureOf_cases | reflexivity | reflexivity].
Qed.

Lemma frames_evolve (fuel : nat) (calls : list nat) :
  forall s : State ER PR,
    exists s' l,
      forEach calls (fun _ => main (S (S fuel))) s = Some (tt, s', l) /\
      evolves s s'.
Proof.
  induction calls as [|c calls IH]; intros s.
  - exists s, []. split; [reflexivity | apply evolves_refl].
  - cbn [forEach]. unfold bind.
    destruct (main_evolves fuel s) as [s1 [l1 [Hrun1 Hev1]]].
    destruct (IH s1) as [s' [l [Hrun Hev]]].
    rewrite Hrun1, Hrun. eexists. eexists. split; [reflexivity|].
    eapply evolves_trans; eassumption.
Qed.

Lemma animationFrame_evolves (fuel : nat) (s : State ER PR) :
  exists s' l,
    animationFrame (S (S fuel)) s = Some (tt, s', l) /\ evolves s s'.
Proof.
  unfold animationFrame, forRange, bind, gets, modify.
  destruct (frames_evolve fuel (seq 0 (rafQueue s)) (set_rafQueue 0 s))
    as [s' [l [Hrun Hev]]].
  rewrite Hrun. exists s', l. split; [reflexivity|].
  apply (evolves_same s (set_rafQueue 0 s)); [reflexivity | reflexivity | exact Hev].
Qed.

(** The listeners of an event are called one after the other: each of the
    engine's closures assigns ["in game"] when the key is Enter, [input]
    moves the player; nothing else changes. *)
Lemma forEach_runListener (keyCode : Z) (fs : list Listener) :
  forall s : State ER PR,
    exists s',
      forEach fs (runListener keyCode) s
      = Some (tt, s',
              if (keyCode =? 13)%Z
              then map (fun _ => AssignGameStatus InGame) (filter isClosure fs)
              else []) /\
      gameStatus s'
      = (if (keyCode =? 13)%Z && existsb isClosure fs
         then InGame else gameStatus s) /\
      listeners s' = listeners s /\
      closures s' = closures s /\
      rafQueue s' = rafQueue s /\
      lastTime s' = lastTime s /\
      allEnemies s' = allEnemies s.
Proof.
  induction fs as [|f fs IH]; intros s.
  - exists s. rewrite andb_false_r. simpl.
    destruct (keyCode =? 13)%Z; repeat split.
  - cbn [forEach]. unfold bind.
    destruct f as [|i|i]; simpl runListener.
    + destruct (IH (set_player (input keyCode (player s)) s))
        as [s' [Hrun [Hg [Hl [Hc [Hq [Ht He]]]]]]].
      unfold modify. rewrite Hrun. exists s'.
      split; [reflexivity|]. simpl. repeat split; assumption.
    + destruct (keyCode =? 13)%Z eqn:Hk.
      * destruct (IH (set_gameStatus InGame s))
          as [s' [Hrun [Hg [Hl [Hc [Hq [Ht He]]]]]]].
        unfold assignGameStatus, modify, emit, bind. rewrite Hrun.
        exists s'. split; [reflexivity|]. simpl in *.
        rewrite Hg. destruct (existsb isClosure fs); repeat split; assumption.
      * destruct (IH s) as [s' [Hrun [Hg [Hl [Hc [Hq [Ht He]]]]]]].
        unfold ret. rewrite Hrun. exists s'.
        split; [reflexivity|]. simpl in *. repeat split; assumption.
    + destruct (keyCode =? 13)%Z eqn:Hk.
      * destruct (IH (set_gameStatus InGame s))
          as [s' [Hrun [Hg [Hl [Hc [Hq [Ht He]]]]]]].
        unfold assignGameStatus, modify, emit, bind. rewrite Hrun.
        exists s'. split; [reflexivity|]. simpl in *.
        rewrite Hg. destruct (existsb isClosure fs); repeat split; assumption.
      * destruct (IH s) as [s' [Hrun [Hg [Hl [Hc [Hq [Ht He]]]]]]].
        unfold ret. rewrite Hrun. exists s'.
        split; [reflexivity|]. simpl in *. repeat split; assumption.
Qed.

Lemma dispatchEvent_eq (ty : EventType) (keyCode : Z) (s : State ER PR) :
  exists s',
    dispatchEvent ty keyCode s
    = Some (tt, s',
            if (keyCode =? 13)%Z
            then map (fun _ => AssignGameStatus InGame)
                     (filter isClosure (listenersOf ty (listeners s)))
            else []) /\
    gameStatus s'
    = (if (keyCode =? 13)%Z && existsb isClosure (listenersOf ty (listeners s))
       then InGame else gameStatus s) /\
    listeners s' = listeners s /\
    closures s' = closures s /\
    rafQueue s' = rafQueue s /\
    lastTime s' = lastTime s /\
    allEnemies s' = allEnemies s.
Proof.
  unfold dispatchEvent, bind, gets.
  destruct (forEach_runListener keyCode (listenersOf ty (listeners s)) s)
    as [s' [Hrun Hrest]].
  rewrite Hrun. exists s'. split; [reflexivity | exact Hrest].
Qed.

Lemma browserStep_evolves (fuel : nat) (ev : BrowserEvent) (s : State ER PR) :
  exists s' l,
    browserStep (S (S fuel)) ev s = Some (tt, s', l) /\ evolves s s'.
Proof.
  destruct ev as [k | k |]; simpl browserStep.
  - destruct (dispatchEvent_eq KeyDown k s) as [s' [Hrun [_ [Hl [Hc _]]]]].
    eexists. eexists. split; [exact Hrun|].
    apply evolves_unchanged; assumption.
  - destruct (dispatchEvent_eq KeyUp k s) as [s' [Hrun [_ [Hl [Hc _]]]]].
    eexists. eexists. split; [exact Hrun|].
    apply evolves_unchanged; assumption.
  - apply animationFrame_evolves.
Qed.

Lemma browserRun_evolves (fuel : nat) (evs : list BrowserEvent) :
  forall s : State ER PR,
    exists s' l,
      browserRun (S (S fuel)) evs s = Some (tt, s', l) /\ evolves s s'.
Proof.
  unfold browserRun.
  induction evs as [|ev evs IH]; intros s.
  - exists s, []. split; [reflexivity | apply evolves_refl].
  - cbn [forEach]. unfold bind.
    destruct (browserStep_evolves fuel ev s) as [s1 [l1 [Hrun1 Hev1]]].
    destruct (IH s1) as [s' [l [Hrun Hev]]].
    rewrite Hrun1, Hrun. eexists. eexists. split; [reflexivity|].
    eapply evolves_trans; eassumption.
Qed.

(** ** The claims about listeners and phases *)

Lemma waitingUpdate_listeners (mk : nat -> Listener) (s : State ER PR) :
  mk = StartInput \/ mk = GameoverInput ->
  closuresKnown s ->
  listeners (waitingUpdate mk s)
  = removeEventListener KeyUp Input (listeners s)
    ++ [(KeyDown, mk (closures s))].
Proof.
  intros Hmk Hk. unfold waitingUpdate. simpl.
  apply addEventListener_new.
  apply tableKnown_fresh; [exact Hmk|].
  apply tableKnown_remove. exact Hk.
Qed.

Lemma waitingUpdate_known (mk : nat -> Listener) (s : State ER PR) :
  mk = StartInput \/ mk = GameoverInput ->
  closuresKnown s -> closuresKnown (waitingUpdate mk s).
Proof.
  intros Hmk Hk.
  apply (evolves_waitingUpdate mk s); [exact Hmk | reflexivity | reflexivity|].
  exact Hk.
Qed.

(** C10. No run of the page, whatever the fuel, the events and the frames,
    takes a key-down listener out of the table: the only entry that ever
    leaves is [input] on key-up. A call of [update] in the phase
    ["new game"] or ["game over"] puts one closure there that was not there
    before (the rest of the table is kept, [input] on key-up apart), and a
    call in the phase ["in game"] keeps every entry but [input] on
    key-up. *)
Theorem keydown_listeners_are_never_removed (fuel : nat) (s : State ER PR) :
  (forall evs, exists s' l,
     browserRun (S (S fuel)) evs s = Some (tt, s', l) /\
     (forall f, In (KeyDown, f) (listeners s) ->
                In (KeyDown, f) (listeners s')) /\
     (forall e, In e (listeners s) -> e <> (KeyUp, Input) ->
                In e (listeners s')) /\
     (closuresKnown s -> closuresKnown s')) /\
  (forall (this_init : Script unit) dt,
     gameStatus s <> InGame ->
     closuresKnown s ->
     exists s',
       update this_init dt s = Some (tt, s', [Call (Fupdate dt) []]) /\
       listeners s'
       = removeEventListener KeyUp Input (listeners s)
         ++ [(KeyDown, closureOf (gameStatus s) (closures s))] /\
       ~ In (KeyDown, closureOf (gameStatus s) (closures s)) (listeners s)) /\
  (forall dt,
     gameStatus s = InGame ->
     exists s' l,
       update (init (S fuel)) dt s = Some (tt, s', l) /\
       forall e, In e (listeners s) -> e <> (KeyUp, Input) ->
                 In e (listeners s')).
Proof.
  split; [|split].
  - intros evs.
    destruct (browserRun_evolves fuel evs s) as [s' [l [Hrun [Hkeep Hknown]]]].
    exists s', l. split; [exact Hrun|]. split; [|split].
    + intros f Hin. apply Hkeep; [exact Hin | discriminate].
    + exact Hkeep.
    + exact Hknown.
  - intros this_init dt Hg Hk.
    rewrite update_waiting by exact Hg.
    eexists. split; [reflexivity|]. split.
    + apply waitingUpdate_listeners; [apply closureOf_cases | exact Hk].
    + apply tableKnown_fresh; [apply closureOf_cases | exact Hk].
  - intros dt Hg.
    rewrite update_InGame by exact Hg.
    rewrite checkCollisions_init. cbv zeta.
    destruct (PrimFloat.ltb _ _).
    + eexists. eexists. split; [reflexivity|].
      simpl. intros e Hin Hne.
      apply addEventListener_keeps, removeEventListener_keeps; [|exact Hne].
      apply addEventListener_keeps. exact Hin.
    + eexists. eexists. split; [reflexivity|].
      simpl. intros e Hin _. apply addEventListener_keeps. exact Hin.
Qed.

(** C4. With the listeners the loop registers, the phase changes from
    ["new game"] or ["game over"] only on a key-down event whose key code
    is 13, and then to ["in game"]: no other key event and no animation
    frame changes it (a key event other than that one changes the phase in
    no phase at all). And once [update] has run in such a phase, that event
    does change it to ["in game"]. *)
Theorem phase_changes_only_on_enter_keydown (fuel : nat) (s : State ER PR) :
  closuresKnown s ->
  (forall ev, exists s' l,
     browserStep (S (S fuel)) ev s = Some (tt, s', l) /\
     (gameStatus s <> InGame ->
      gameStatus s' <> gameStatus s ->
      ev = KeyDownEvent 13 /\ gameStatus s' = InGame)) /\
  (forall ty keyCode, exists s' l,
     dispatchEvent ty keyCode s = Some (tt, s', l) /\
     (gameStatus s' <> gameStatus s ->
      ty = KeyDown /\ keyCode = 13%Z /\ gameStatus s' = InGame)) /\
  (gameStatus s <> InGame ->
   forall (this_init : Script unit) dt,
   exists s1 s2 l2,
     update this_init dt s = Some (tt, s1, [Call (Fupdate dt) []]) /\
     gameStatus s1 = gameStatus s /\
     dispatchEvent KeyDown 13 s1 = Some (tt, s2, l2) /\
     gameStatus s2 = InGame).
Proof.
  intros Hk.
  assert (Hkey : forall ty keyCode, exists s' l,
             dispatchEvent ty keyCode s = Some (tt, s', l) /\
             (gameStatus s' <> gameStatus s ->
              ty = KeyDown /\ keyCode = 13%Z /\ gameStatus s' = InGame)).
  { intros ty keyCode.
    destruct (dispatchEvent_eq ty keyCode s) as [s' [Hrun [Hg _]]].
    eexists. eexists. split; [exact Hrun|].
    intros Hchange. rewrite Hg in *.
    destruct (keyCode =? 13)%Z eqn:Hcode; simpl in *; [|congruence].
    destruct (existsb isClosure (listenersOf ty (listeners s))) eqn:Hex;
      [|congruence].
    apply existsb_exists in Hex. destruct Hex as [f [Hin Hf]].
    apply listenersOf_In in Hin.
    split; [|split; [apply Z.eqb_eq; exact Hcode | reflexivity]].
    destruct f as [|i|i]; [discriminate | |]; apply (Hk ty i); auto. }
  split; [|split].
  - intros [keyCode | keyCode |]; simpl browserStep.
    + destruct (Hkey KeyDown keyCode) as [s' [l [Hrun Honly]]].
      exists s', l. split; [exact Hrun|].
      intros _ Hchange. destruct (Honly Hchange) as [_ [-> Hg]].
      split; [reflexivity | exact Hg].
    + destruct (Hkey KeyUp keyCode) as [s' [l [Hrun Honly]]].
      exists s', l. split; [exact Hrun|].
      intros _ Hchange. destruct (Honly Hchange) as [Hty _]. discriminate.
    + destruct (animationFrame_evolves fuel s) as [s' [l [Hrun _]]].
      exists s', l. split; [exact Hrun|].
      intros Hg Hchange. exfalso. apply Hchange.
      revert Hrun. unfold animationFrame, forRange, bind, gets, modify.
      destruct (waiting_frames (S fuel) (seq 0 (rafQueue s))
                  (set_rafQueue 0 s) Hg) as [s1 [l1 [Hrun1 [Hg1 _]]]].
      rewrite Hrun1. intros Heq. injection Heq as <- _. exact Hg1.
  - exact Hkey.
  - intros Hg this_init dt.
    rewrite update_waiting by exact Hg.
    destruct (dispatchEvent_eq KeyDown 13
                (waitingUpdate (closureOf (gameStatus s)) s))
      as [s2 [Hrun [Hg2 _]]].
    eexists. exists s2. eexists.
    split; [reflexivity|]. split; [reflexivity|]. split; [exact Hrun|].
    rewrite Hg2. simpl Z.eqb. cbv iota.
    replace (existsb isClosure _) with true; [reflexivity|].
    symmetry. apply existsb_exists.
    exists (closureOf (gameStatus s) (closures s)). split.
    + apply listenersOf_In. simpl. apply addEventListener_has.
    + destruct (gameStatus s); reflexivity.
Qed.

Lemma newGame_updates_from_clean (this_init : Script unit)
    (dts : list number) :
  forall s : State ER PR,
    gameStatus s = NewGame ->
    closuresKnown s ->
    ~ In (KeyUp, Input) (listeners s) ->
    exists s',
      forEach dts (update this_init) s
      = Some (tt, s', map (fun d => Call (Fupdate d) []) dts) /\
      gameStatus s' = NewGame /\
      listeners s'
      = listeners s
        ++ map (fun id => (KeyDown, StartInput id))
               (seq (closures s) (List.length dts)).
Proof.
  induction dts as [|d dts IH]; intros s Hg Hk Hclean.
  - exists s. simpl. rewrite app_nil_r. repeat split. exact Hg.
  - cbn [forEach]. unfold bind.
    rewrite update_waiting by congruence. rewrite Hg. simpl closureOf.
    assert (Hl1 : listeners (waitingUpdate StartInput s)
                  = listeners s ++ [(KeyDown, StartInput (closures s))]).
    { rewrite waitingUpdate_listeners by (auto; exact Hk).
      rewrite removeEventListener_absent by exact Hclean. reflexivity. }
    destruct (IH (waitingUpdate StartInput s)) as [s' [Hrun [Hg' Hl']]].
    + exact Hg.
    + apply waitingUpdate_known; [left; reflexivity | exact Hk].
    + rewrite Hl1. intros Hin. apply in_app_or in Hin.
      destruct Hin as [Hin | [Heq | []]]; [contradiction | discriminate].
    + rewrite Hrun. exists s'. split; [reflexivity|]. split; [exact Hg'|].
      rewrite Hl', Hl1. simpl. rewrite <- app_assoc. reflexivity.
Qed.

(** C2, as the code has it. Calls of [update] in the phase ["new game"]
    with no event between them leave the phase ["new game"], but each call
    puts a closure of its own on key-down: after [n] calls the table holds
    [n] new [startInput] listeners ([input] is off key-up). One key-down
    event of key code 13 then calls every key-down closure; each assigns
    ["in game"], and the phase is ["in game"] afterwards. *)
Theorem newGame_updates_attach_one_listener_each (this_init : Script unit)
    (dt : number) (dts : list number) (s : State ER PR) :
  gameStatus s = NewGame ->
  closuresKnown s ->
  exists s',
    forEach (dt :: dts) (update this_init) s
    = Some (tt, s', map (fun d => Call (Fupdate d) []) (dt :: dts)) /\
    gameStatus s' = NewGame /\
    listeners s'
    = removeEventListener KeyUp Input (listeners s)
      ++ map (fun id => (KeyDown, StartInput id))
             (seq (closures s) (S (List.length dts))) /\
    exists s'',
      dispatchEvent KeyDown 13 s'
      = Some (tt, s'',
              repeat (AssignGameStatus InGame)
                (List.length
                   (filter isClosure (listenersOf KeyDown (listeners s)))
                 + S (List.length dts))) /\
      gameStatus s'' = InGame.
Proof.
  intros Hg Hk.
  cbn [forEach]. unfold bind.
  rewrite update_waiting by congruence. rewrite Hg. simpl closureOf.
  pose proof (waitingUpdate_listeners StartInput s (or_introl eq_refl) Hk)
    as Hl1.
  destruct (newGame_updates_from_clean this_init dts
              (waitingUpdate StartInput s)) as [s' [Hrun [Hg' Hl']]].
  - exact Hg.
  - apply waitingUpdate_known; [left; reflexivity | exact Hk].
  - rewrite Hl1. intros Hin. apply in_app_or in Hin.
    destruct Hin as [Hin | [Heq | []]]; [|discriminate].
    exact (removeEventListener_gone _ _ _ Hin).
  - rewrite Hrun. exists s'. split; [reflexivity|]. split; [exact Hg'|].
    assert (Hl : listeners s'
                 = removeEventListener KeyUp Input (listeners s)
                   ++ map (fun id => (KeyDown, StartInput id))
                          (seq (closures s) (S (List.length dts)))).
    { rewrite Hl', Hl1. simpl. rewrite <- app_assoc. reflexivity. }
    split; [exact Hl|].
    destruct (dispatchEvent_eq KeyDown 13 s') as [s'' [Hrun2 [Hg2 _]]].
    exists s''.
    assert (Hfs : filter isClosure (listenersOf KeyDown (listeners s'))
                  = filter isClosure (listenersOf KeyDown (listeners s))
                    ++ map StartInput (seq (closures s) (S (List.length dts)))).
    { rewrite Hl, listenersOf_app, listenersOf_remove_keyup,
        (listenersOf_closures StartInput), filter_app,
        filter_isClosure_StartInput. reflexivity. }
    split.
    + rewrite Hrun2. simpl Z.eqb. cbv iota.
      rewrite Hfs, map_const_repeat, length_app, length_map, length_seq.
      reflexivity.
    + rewrite Hg2. simpl Z.eqb. cbv iota.
      replace (existsb isClosure (listenersOf KeyDown (listeners s')))
        with true; [reflexivity|].
      symmetry. apply existsb_exists.
      exists (StartInput (closures s)). split; [|reflexivity].
      apply listenersOf_In. rewrite Hl. apply in_or_app. right.
      simpl. left. reflexivity.
Qed.

End Facts.

(** * The statements at work on the sample pages *)

Local Open Scope float_scope.

Lemma startPage_known : closuresKnown startPage.
Proof.
  intros ty id [H | H]; simpl in H; destruct H as [H | []]; discriminate H.
Defined.

Lemma pausedPage_known : closuresKnown pausedPage.
Proof.
  intros ty id [[H | [H | []]] | [H | [H | []]]]; try discriminate H;
    injection H as <- <-; (split; [reflexivity | repeat constructor]).
Defined.

(** C1: the player at (0, -5), no enemy near: the game is won. *)
Lemma top_reached_witness :
  gameStatus wonPage = InGame /\
  PrimFloat.ltb (player_y (player wonPage)) 0 = true /\
  exists s' l,
    checkCollisions (init 1) wonPage = Some (tt, s', l) /\
    player_x (player s') = 200 /\
    player_y (player s') = 380 /\
    ((forall enemy, In enemy (allEnemies wonPage) ->
        collides (player wonPage) enemy = false) ->
     gameStatus s' = GameOver) /\
    ((exists enemy, In enemy (allEnemies wonPage) /\
        collides (player wonPage) enemy = true) ->
     gameStatus s' = InGame).
Proof.
  split; [reflexivity|]. split; [reflexivity|].
  apply (top_reached_after_collision_loop 0 wonPage); reflexivity.
Defined.

(** C1 as stated fails: the player at (0, -5) has y below 0 and overlaps the
    enemy at (0, -10); [checkCollisions] puts it at (200, 380) and the phase
    is still ["in game"], not ["game over"]; so it is after the whole
    [update]. *)
Lemma top_reached_while_hit_stays_in_game :
  gameStatus wonAndHitPage = InGame /\
  PrimFloat.ltb (player_y (player wonAndHitPage)) 0 = true /\
  collides (player wonAndHitPage) (sampleEnemy 0 (-10)) = true /\
  (exists s' l,
     checkCollisions (init 1) wonAndHitPage = Some (tt, s', l) /\
     player_x (player s') = 200 /\
     player_y (player s') = 380 /\
     gameStatus s' = InGame /\
     gameStatus s' <> GameOver) /\
  (exists s' l,
     update (init 1) 0 wonAndHitPage = Some (tt, s', l) /\
     gameStatus s' = InGame /\
     gameStatus s' <> GameOver).
Proof.
  split; [reflexivity|]. split; [reflexivity|]. split; [reflexivity|]. split.
  - eexists. eexists. split; [vm_compute; reflexivity|].
    repeat split; simpl; discriminate.
  - eexists. eexists. split; [vm_compute; reflexivity|].
    repeat split; simpl; discriminate.
Qed.

(** C2: three calls of [update] on the start page. *)
Lemma newGame_updates_witness :
  gameStatus startPage = NewGame /\
  exists s',
    forEach [0.016; 0.016; 0.016] (update (init 1)) startPage
    = Some (tt, s', map (fun d => Call (Fupdate d) []) [0.016; 0.016; 0.016]) /\
    gameStatus s' = NewGame /\
    listeners s'
    = removeEventListener KeyUp Input (listeners startPage)
      ++ map (fun id => (KeyDown, StartInput id))
             (seq (closures startPage) 3) /\
    exists s'',
      dispatchEvent KeyDown 13 s'
      = Some (tt, s'',
              repeat (AssignGameStatus InGame)
                (List.length
                   (filter isClosure
                      (listenersOf KeyDown (listeners startPage)))
                 + 3)) /\
      gameStatus s'' = InGame.
Proof.
  split; [reflexivity|].
  apply (newGame_updates_attach_one_listener_each
           (init 1) 0.016 [0.016; 0.016] startPage);
    [reflexivity | exact startPage_known].
Defined.

(** C2 as stated fails: after one call of [update] on the start page the
    table holds one key-down listener, after two calls it holds two, and the
    second is not in the table the first call left. *)
Lemma second_update_attaches_second_listener :
  exists s1 l1 s2 l2,
    forEach [0.016] (update (init 1)) startPage = Some (tt, s1, l1) /\
    forEach [0.016; 0.016] (update (init 1)) startPage = Some (tt, s2, l2) /\
    gameStatus s2 = NewGame /\
    listeners s1 = [(KeyDown, StartInput 0)] /\
    listeners s2 = [(KeyDown, StartInput 0); (KeyDown, StartInput 1)] /\
    In (KeyDown, StartInput 1) (listeners s2) /\
    ~ In (KeyDown, StartInput 1) (listeners s1).
Proof.
  eexists. eexists. eexists. eexists.
  split; [vm_compute; reflexivity|].
  split; [vm_compute; reflexivity|].
  simpl. repeat split.
  - right. left. reflexivity.
  - intros [H | []]. discriminate H.
Qed.

(** C3: the enemy at (180, 380) overlaps the player at (200, 380). *)
Lemma collision_resets_player_witness :
  gameStatus hitPage = InGame /\
  (exists enemy, In enemy (allEnemies hitPage) /\
     collides (player hitPage) enemy = true) /\
  checkCollisions (init 1) hitPage
  = Some (tt, set_player (startPosition (player hitPage)) hitPage,
          [Call FcheckCollisions []]) /\
  player_x (startPosition (player hitPage)) = 200 /\
  player_y (startPosition (player hitPage)) = 380 /\
  gameStatus (set_player (startPosition (player hitPage)) hitPage) = InGame.
Proof.
  assert (Hhit : exists enemy, In enemy (allEnemies hitPage) /\
                   collides (player hitPage) enemy = true).
  { exists (sampleEnemy 180 380). split; [left; reflexivity | reflexivity]. }
  split; [reflexivity|]. split; [exact Hhit|].
  apply (proj1 (collision_resets_player 0 0 hitPage)); [reflexivity | exact Hhit].
Defined.

(** C4: Enter on the start page once [update] has run. *)
Lemma phase_changes_witness :
  gameStatus startPage <> InGame /\
  exists s1 s2 l2,
    update (init 1) 0.016 startPage = Some (tt, s1, [Call (Fupdate 0.016) []]) /\
    gameStatus s1 = gameStatus startPage /\
    dispatchEvent KeyDown 13 s1 = Some (tt, s2, l2) /\
    gameStatus s2 = InGame.
Proof.
  assert (Hg : gameStatus startPage <> InGame) by (simpl; discriminate).
  split; [exact Hg|].
  apply (proj2 (proj2 (phase_changes_only_on_enter_keydown 0 startPage
                         startPage_known)) Hg (init 1) 0.016).
Defined.

(** C5: a frame of the running game, 16 ms after the last one: one
    callback was queued, two are when [main] returns. *)
Lemma main_frame_witness :
  exists s' l,
    main 2 runningPage = Some (tt, s', l) /\
    rafQueue runningPage = 1%nat /\
    rafQueue s' = 2%nat /\
    exists inUpdate inRender,
      l = [Call Fmain
             [ReadDateNow 1016;
              Call (Fupdate 0.016) inUpdate;
              Call Frender inRender;
              AssignLastTime 1016;
              RequestAnimationFrame]] /\
      lastTime s' = Some 1016 /\
      (exists s1,
         update (init 1) 0.016 (set_clockReads 2 runningPage)
         = Some (tt, s1, [Call (Fupdate 0.016) inUpdate]) /\
         render s1 = Some (tt, s1, [Call Frender inRender]) /\
         s' = set_rafQueue (S (rafQueue s1)) (set_lastTime (Some 1016) s1) /\
         rafQueue s1
         = (rafQueue runningPage
            + List.length (filter isRequest (leavesOf inUpdate)))%nat) /\
      rafQueue s'
      = (rafQueue runningPage
         + List.length (filter isRequest (leavesOf l)))%nat /\
      (filter isRequest (leavesOf inUpdate) = [] ->
       rafQueue s' = S (rafQueue runningPage)).
Proof.
  eexists. eexists.
  split; [vm_compute; reflexivity|].
  split; [reflexivity|]. split; [reflexivity|].
  match goal with
  | |- exists inUpdate inRender, ?l = _ /\ lastTime ?s' = _ /\ _ =>
      exact (proj2 (@main_one_update_one_render_one_request
                      number unit sampleApp runningPage)
               2%nat s' l ltac:(vm_compute; reflexivity))
  end.
Defined.

(** C8: the frame in which the player reaches the top queues [main]
    twice. *)
Lemma win_calls_init_again_witness :
  gameStatus wonPage = InGame /\
  exists s' l,
    main 2 wonPage = Some (tt, s', l) /\
    gameStatus s' = GameOver /\
    rafQueue s' = S (S (rafQueue wonPage)).
Proof.
  split; [reflexivity|].
  apply (proj1 (proj2 (win_calls_init_again 0 wonPage))); reflexivity.
Defined.

(** C9: nothing near the player, who is not at the top. *)
Lemma checkCollisions_frame_witness :
  exists s' l,
    checkCollisions (init 1) quietPage = Some (tt, s', l) /\
    allEnemies s' = allEnemies quietPage /\
    s' = quietPage /\
    l = [Call FcheckCollisions []].
Proof.
  destruct (checkCollisions_frame 0 quietPage) as [s' [l [Hrun [He Hsame]]]].
  exists s', l. split; [exact Hrun|]. split; [exact He|].
  apply Hsame; [|reflexivity].
  intros enemy [<- | []]. reflexivity.
Defined.

(** C10: on the page that waits after a win, with two closures on key-down
    and two callbacks queued: a frame, Enter, a frame of the game, the up
    arrow and another frame. The two closures are still there, after them
    the two that the first frame has put there; and a call of [update] on
    that page puts a new [gameoverInput] there. *)
Lemma keydown_listeners_witness :
  closuresKnown pausedPage /\
  rafQueue pausedPage = 2%nat /\
  listeners pausedPage = [(KeyDown, StartInput 0); (KeyDown, GameoverInput 1)] /\
  (exists s' l,
     browserRun 2
       [AnimationFrame; KeyDownEvent 13; AnimationFrame; KeyUpEvent 38;
        AnimationFrame] pausedPage = Some (tt, s', l) /\
     listeners s'
     = [(KeyDown, StartInput 0); (KeyDown, GameoverInput 1);
        (KeyDown, GameoverInput 2); (KeyDown, GameoverInput 3);
        (KeyUp, Input)] /\
     (forall f, In (KeyDown, f) (listeners pausedPage) ->
                In (KeyDown, f) (listeners s')) /\
     (forall e, In e (listeners pausedPage) -> e <> (KeyUp, Input) ->
                In e (listeners s')) /\
     (closuresKnown pausedPage -> closuresKnown s')) /\
  (exists s',
     update (init 1) 0.016 pausedPage
     = Some (tt, s', [Call (Fupdate 0.016) []]) /\
     listeners s'
     = removeEventListener KeyUp Input (listeners pausedPage)
       ++ [(KeyDown, GameoverInput 2)] /\
     ~ In (KeyDown, GameoverInput 2) (listeners pausedPage)).
Proof.
  split; [exact pausedPage_known|].
  split; [reflexivity|]. split; [reflexivity|]. split.
  - destruct (proj1 (@keydown_listeners_are_never_removed
                       number unit sampleApp 0%nat pausedPage)
                [AnimationFrame; KeyDownEvent 13; AnimationFrame;
                 KeyUpEvent 38; AnimationFrame])
      as [s' [l [Hrun Hkeep]]].
    exists s', l. split; [exact Hrun|]. split; [|exact Hkeep].
    vm_compute in Hrun. injection Hrun as <- _. reflexivity.
  - apply (proj1 (proj2 (@keydown_listeners_are_never_removed
                           number unit sampleApp 0%nat pausedPage))
             (init 1) 0.016);
      [simpl; discriminate | exact pausedPage_known].
Defined.

(** * Properties beyond the claims *)

Local Close Scope float_scope.

(** ** Numbers *)

Lemma ltb_irrefl (a : number) : PrimFloat.ltb a a = false.
Proof.
  rewrite FloatAxioms.ltb_spec. unfold SFltb.
  destruct (Prim2SF a) as [sg | sg | | sg m e]; simpl; try reflexivity.
  - destruct sg; reflexivity.
  - rewrite Z.compare_refl, Pos.compare_cont_refl. destruct sg; reflexivity.
Qed.

Lemma ltb_nan_l (a : number) : PrimFloat.ltb PrimFloat.nan a = false.
Proof. rewrite FloatAxioms.ltb_spec. reflexivity. Qed.

Lemma ltb_nan_r (a : number) : PrimFloat.ltb a PrimFloat.nan = false.
Proof.
  rewrite FloatAxioms.ltb_spec. unfold SFltb.
  change (Prim2SF PrimFloat.nan) with S754_nan.
  destruct (Prim2SF a); reflexivity.
Qed.

Lemma sub_nan_r (a : number) : (a - PrimFloat.nan)%float = PrimFloat.nan.
Proof.
  apply Prim2SF_inj. rewrite FloatAxioms.sub_spec.
  change (Prim2SF PrimFloat.nan) with S754_nan.
  unfold SF64sub, SFsub. destruct (Prim2SF a); reflexivity.
Qed.

Lemma add_nan_l (a : number) : (PrimFloat.nan + a)%float = PrimFloat.nan.
Proof.
  apply Prim2SF_inj. rewrite FloatAxioms.add_spec.
  change (Prim2SF PrimFloat.nan) with S754_nan. reflexivity.
Qed.

Lemma add_nan_r (a : number) : (a + PrimFloat.nan)%float = PrimFloat.nan.
Proof.
  apply Prim2SF_inj. rewrite FloatAxioms.add_spec.
  change (Prim2SF PrimFloat.nan) with S754_nan.
  unfold SF64add, SFadd. destruct (Prim2SF a); reflexivity.
Qed.

Section MoreFacts.

Context {ER PR : Type} `{app : AppJs ER PR}.

Local Abbreviation Script := (M ER PR).

(** ** More on collisions *)

Lemma afterEnemies_idem (enemies : list (Enemy ER)) (p : Player PR) :
  afterEnemies enemies (afterEnemies enemies p) = afterEnemies enemies p.
Proof.
  destruct (some_enemy_or_none enemies p) as [Hhit | Hmiss].
  - rewrite (afterEnemies_hit _ _ Hhit). apply (afterEnemies_start enemies).
  - rewrite !(afterEnemies_miss _ _ Hmiss). reflexivity.
Qed.

(** X1. [checkCollisions] is idempotent on the page: whatever the first
    call did (nothing, a reset of the player, or the win with its call of
    [init]), a second call right after it changes nothing and calls
    nothing. *)
Theorem checkCollisions_twice (fuel : nat) (s : State ER PR) :
  exists s1 l1,
    checkCollisions (init (S fuel)) s = Some (tt, s1, l1) /\
    checkCollisions (init (S fuel)) s1
    = Some (tt, s1, [Call FcheckCollisions []]).
Proof.
  rewrite checkCollisions_init. cbv zeta.
  destruct (PrimFloat.ltb
              (player_y (afterEnemies (allEnemies s) (player s))) 0%float)
    eqn:Hy.
  - eexists. eexists. split; [reflexivity|].
    rewrite checkCollisions_init. cbv zeta.
    change (allEnemies (afterInit (wonState ?p s))) with (allEnemies s).
    change (player (afterInit (wonState ?p s))) with (startPosition p).
    change (startPosition (afterEnemies (allEnemies s) (player s)))
      with (mkPlayer 200%float 380%float
              (player_rest (afterEnemies (allEnemies s) (player s)))).
    rewrite (afterEnemies_start (allEnemies s)).
    cbn [player_y].
    change (PrimFloat.ltb 380%float 0%float) with false. cbv iota.
    reflexivity.
  - eexists. eexists. split; [reflexivity|].
    rewrite checkCollisions_init. cbv zeta.
    change (allEnemies (set_player ?p s)) with (allEnemies s).
    change (player (set_player ?p s)) with p.
    rewrite afterEnemies_idem, Hy.
    reflexivity.
Qed.

(** X2. The inequalities of the collision test are strict: hitboxes that
    only touch along an edge do not collide. A coordinate that is NaN
    collides with nothing. *)
Theorem touching_hitboxes_do_not_collide (p : Player PR) (enemy : Enemy ER) :
  (enemy_x enemy = (player_x p + 37)%float \/
   player_x p = (enemy_x enemy + 60)%float \/
   enemy_y enemy = (30 + player_y p)%float \/
   player_y p = (enemy_y enemy + 25)%float \/
   player_x p = PrimFloat.nan \/
   player_y p = PrimFloat.nan \/
   enemy_x enemy = PrimFloat.nan \/
   enemy_y enemy = PrimFloat.nan) ->
  collides p enemy = false.
Proof.
  unfold collides, gtb.
  intros [H | [H | [H | [H | [H | [H | [H | H]]]]]]]; rewrite H.
  - rewrite ltb_irrefl, andb_false_r. reflexivity.
  - rewrite ltb_irrefl. reflexivity.
  - rewrite ltb_irrefl, andb_false_r. reflexivity.
  - rewrite (ltb_irrefl (enemy_y enemy + 25)%float), !andb_false_r.
    reflexivity.
  - rewrite ltb_nan_l. reflexivity.
  - rewrite (ltb_nan_l (enemy_y enemy + 25)%float), !andb_false_r.
    reflexivity.
  - rewrite add_nan_l, ltb_nan_r. reflexivity.
  - rewrite add_nan_l, (ltb_nan_r (player_y p)), !andb_false_r. reflexivity.
Qed.

(** ** What every run keeps *)

Lemma NoDup_addEventListener ty f t :
  NoDup t -> NoDup (addEventListener ty f t).
Proof.
  intros Hnd. unfold addEventListener.
  destruct (existsb (entry_eqb (ty, f)) t) eqn:Hex; [exact Hnd|].
  apply NoDup_app; [exact Hnd | repeat constructor; intros [] |].
  intros e Hin [<- | []].
  apply existsb_entry in Hin. congruence.
Qed.

Lemma NoDup_removeEventListener ty f t :
  NoDup t -> NoDup (removeEventListener ty f t).
Proof. intros Hnd. unfold removeEventListener. apply NoDup_filter. exact Hnd. Qed.

Lemma advances_refl (s : State ER PR) : advances s s.
Proof. unfold advances. repeat split; auto. Qed.

Lemma advances_trans (s1 s2 s3 : State ER PR) :
  advances s1 s2 -> advances s2 s3 -> advances s1 s3.
Proof.
  intros [G12 [Q12 [T12 [E12 N12]]]] [G23 [Q23 [T23 [E23 N23]]]].
  unfold advances. repeat split; auto; [lia | congruence].
Qed.

(** One call of [main]: besides what every step keeps, it queues [main] at
    least once, leaves [lastTime] defined, and moves the phase only from
    ["in game"] to ["game over"]. *)
Lemma main_advances (fuel : nat) (s : State ER PR) :
  exists s' l,
    main (S (S fuel)) s = Some (tt, s', l) /\
    advances s s' /\
    rafQueue s < rafQueue s' /\
    lastTime s' <> None /\
    (gameStatus s' = gameStatus s \/
     gameStatus s = InGame /\ gameStatus s' = GameOver).
Proof.
  change (main (S (S fuel))) with (mainWith (init (S fuel))).
  assert (Hwait : gameStatus s <> InGame ->
            exists s' l,
              mainWith (init (S fuel)) s = Some (tt, s', l) /\
              advances s s' /\
              rafQueue s < rafQueue s' /\
              lastTime s' <> None /\
              (gameStatus s' = gameStatus s \/
               gameStatus s = InGame /\ gameStatus s' = GameOver)).
  { intros Hg. rewrite mainWith_waiting by exact Hg.
    eexists. eexists. split; [reflexivity|].
    split; [|split; [simpl; lia | split; [discriminate | left; reflexivity]]].
    unfold advances. simpl.
    repeat split; try tauto; try lia; try discriminate.
    intros Hnd. apply NoDup_addEventListener, NoDup_removeEventListener.
    exact Hnd. }
  destruct (gameStatus s) eqn:Hg;
    [apply Hwait; discriminate | | apply Hwait; discriminate].
  rewrite mainWith_InGame by exact Hg.
  rewrite checkCollisions_init. cbv zeta.
  destruct (PrimFloat.ltb _ _).
  - eexists. eexists. split; [reflexivity|].
    split; [|split; [simpl; lia | split; [discriminate | right; split; reflexivity]]].
    unfold advances. simpl. rewrite length_map.
    repeat split; try discriminate; try lia.
    intros Hnd.
    apply NoDup_addEventListener, NoDup_removeEventListener,
      NoDup_addEventListener.
    exact Hnd.
  - eexists. eexists. split; [reflexivity|].
    split; [|split; [simpl; lia | split; [discriminate | left; simpl; congruence]]].
    unfold advances. simpl. rewrite length_map, Hg.
    repeat split; try discriminate; try lia.
    intros Hnd. apply NoDup_addEventListener. exact Hnd.
Qed.

Lemma frames_advance (fuel : nat) (calls : list nat) :
  forall s : State ER PR,
    exists s' l,
      forEach calls (fun _ => main (S (S fuel))) s = Some (tt, s', l) /\
      advances s s' /\
      List.length calls + rafQueue s <= rafQueue s' /\
      (gameStatus s' = gameStatus s \/
       gameStatus s = InGame /\ gameStatus s' = GameOver).
Proof.
  induction calls as [|c calls IH]; intros s.
  - exists s, []. split; [reflexivity|].
    split; [apply advances_refl | split; [simpl; lia | left; reflexivity]].
  - cbn [forEach]. unfold bind.
    destruct (main_advances fuel s) as [s1 [l1 [Hrun1 [Hadv1 [Hq1 [_ Hg1]]]]]].
    destruct (IH s1) as [s' [l [Hrun [Hadv [Hq Hg]]]]].
    rewrite Hrun1, Hrun. eexists. eexists. split; [reflexivity|].
    split; [eapply advances_trans; eassumption|].
    split; [simpl; lia|].
    destruct Hg1 as [Hg1 | [Hg1 Hg1']], Hg as [Hg | [Hg Hg']];
      try (left; congruence); try (right; split; congruence).
Qed.

Lemma animationFrame_advances (fuel : nat) (s : State ER PR) :
  exists s' l,
    animationFrame (S (S fuel)) s = Some (tt, s', l) /\
    advances s s' /\
    (gameStatus s' = gameStatus s \/
     gameStatus s = InGame /\ gameStatus s' = GameOver).
Proof.
  unfold animationFrame, forRange, bind, gets, modify.
  destruct (frames_advance fuel (seq 0 (rafQueue s)) (set_rafQueue 0 s))
    as [s' [l [Hrun [[G [Q [T [E N]]]] [Hq Hg]]]]].
  rewrite Hrun. exists s', l. split; [reflexivity|].
  rewrite length_seq in Hq. simpl in *.
  split; [|exact Hg].
  unfold advances. repeat split; auto. lia.
Qed.

Lemma dispatchEvent_advances (ty : EventType) (keyCode : Z)
    (s : State ER PR) :
  exists s' l,
    dispatchEvent ty keyCode s = Some (tt, s', l) /\
    advances s s' /\
    (gameStatus s' = gameStatus s \/ gameStatus s' = InGame).
Proof.
  destruct (dispatchEvent_eq ty keyCode s)
    as [s' [Hrun [Hg [Hl [Hc [Hq [Ht He]]]]]]].
  eexists. eexists. split; [exact Hrun|].
  assert (Hphase : gameStatus s' = gameStatus s \/ gameStatus s' = InGame).
  { rewrite Hg. destruct (_ && _); auto. }
  split; [|exact Hphase].
  unfold advances. rewrite Hl, Hq, Ht, He.
  repeat split; auto.
  intros Hne. destruct Hphase as [-> | ->]; [exact Hne | discriminate].
Qed.

Lemma browserStep_advances (fuel : nat) (ev : BrowserEvent)
    (s : State ER PR) :
  exists s' l,
    browserStep (S (S fuel)) ev s = Some (tt, s', l) /\ advances s s'.
Proof.
  destruct ev as [k | k |]; simpl browserStep.
  - destruct (dispatchEvent_advances KeyDown k s) as [s' [l [Hrun [Hadv _]]]].
    eauto.
  - destruct (dispatchEvent_advances KeyUp k s) as [s' [l [Hrun [Hadv _]]]].
    eauto.
  - destruct (animationFrame_advances fuel s) as [s' [l [Hrun [Hadv _]]]].
    eauto.
Qed.

Lemma browserRun_advances (fuel : nat) (evs : list BrowserEvent) :
  forall s : State ER PR,
    exists s' l,
      browserRun (S (S fuel)) evs s = Some (tt, s', l) /\ advances s s'.
Proof.
  unfold browserRun.
  induction evs as [|ev evs IH]; intros s.
  - exists s, []. split; [reflexivity | apply advances_refl].
  - cbn [forEach]. unfold bind.
    destruct (browserStep_advances fuel ev s) as [s1 [l1 [Hrun1 Hadv1]]].
    destruct (IH s1) as [s' [l [Hrun Hadv]]].
    rewrite Hrun1, Hrun. eexists. eexists. split; [reflexivity|].
    eapply advances_trans; eassumption.
Qed.

(** A key event moves the phase only when it is a key-down of key code 13,
    and then to ["in game"]. *)
Lemma dispatchEvent_phase (ty : EventType) (keyCode : Z) (s : State ER PR) :
  closuresKnown s ->
  exists s' l,
    dispatchEvent ty keyCode s = Some (tt, s', l) /\
    (gameStatus s' = gameStatus s \/
     gameStatus s' = InGame /\ ty = KeyDown /\ keyCode = 13%Z).
Proof.
  intros Hk.
  destruct (dispatchEvent_eq ty keyCode s) as [s' [Hrun [Hg _]]].
  eexists. eexists. split; [exact Hrun|].
  rewrite Hg.
  destruct (keyCode =? 13)%Z eqn:Hcode; simpl; [|left; reflexivity].
  destruct (existsb isClosure (listenersOf ty (listeners s))) eqn:Hex;
    [|left; reflexivity].
  right. split; [reflexivity|].
  apply existsb_exists in Hex. destruct Hex as [f [Hin Hf]].
  apply listenersOf_In in Hin.
  split; [|apply Z.eqb_eq; exact Hcode].
  destruct f as [|i|i]; [discriminate | |]; apply (Hk ty i); auto.
Qed.

(** X3. The phase graph. On a page whose closures are the engine's, one
    step of the browser either leaves the phase, or takes it from
    ["new game"] or ["game over"] to ["in game"] (and the step is then the
    key-down of key code 13), or takes it from ["in game"] to
    ["game over"] (and the step is then an animation frame). *)
Theorem phase_moves_along_three_edges (fuel : nat) (ev : BrowserEvent)
    (s : State ER PR) :
  closuresKnown s ->
  exists s' l,
    browserStep (S (S fuel)) ev s = Some (tt, s', l) /\
    (gameStatus s' = gameStatus s \/
     (gameStatus s <> InGame /\ gameStatus s' = InGame /\
      ev = KeyDownEvent 13) \/
     (gameStatus s = InGame /\ gameStatus s' = GameOver /\
      ev = AnimationFrame)).
Proof.
  intros Hk. destruct ev as [k | k |]; simpl browserStep.
  - destruct (dispatchEvent_phase KeyDown k s Hk) as [s' [l [Hrun Hg]]].
    exists s', l. split; [exact Hrun|].
    destruct Hg as [Hg | [Hg [_ ->]]]; [left; exact Hg|].
    destruct (gameStatus s) eqn:Hs.
    + right. left. repeat split; [discriminate | exact Hg].
    + left. exact Hg.
    + right. left. repeat split; [discriminate | exact Hg].
  - destruct (dispatchEvent_phase KeyUp k s Hk) as [s' [l [Hrun Hg]]].
    exists s', l. split; [exact Hrun|].
    destruct Hg as [Hg | [_ [Hty _]]]; [left; exact Hg | discriminate].
  - destruct (animationFrame_advances fuel s) as [s' [l [Hrun [_ Hg]]]].
    exists s', l. split; [exact Hrun|].
    destruct Hg as [Hg | [Hg Hg']]; [left; exact Hg|].
    right. right. repeat split; assumption.
Qed.

(** X4. Once the phase has left ["new game"], no run of the page brings it
    back: the title screen is shown only before the first Enter. *)
Theorem newGame_is_never_reentered (fuel : nat) (evs : list BrowserEvent)
    (s : State ER PR) :
  gameStatus s <> NewGame ->
  exists s' l,
    browserRun (S (S fuel)) evs s = Some (tt, s', l) /\
    gameStatus s' <> NewGame.
Proof.
  intros Hg.
  destruct (browserRun_advances fuel evs s) as [s' [l [Hrun [Hkeep _]]]].
  exists s', l. split; [exact Hrun | exact (Hkeep Hg)].
Qed.

(** X5. The frame loop never stops: every call of [main] leaves more
    callbacks queued than it found, [init] leaves at least one, and no run
    of the page, whatever the events, makes the queue shorter. *)
Theorem frame_loop_never_stops (fuel : nat) (s : State ER PR) :
  (exists s' l,
     main (S (S fuel)) s = Some (tt, s', l) /\ rafQueue s < rafQueue s') /\
  (exists s' l,
     init (S (S fuel)) s = Some (tt, s', l) /\ 1 <= rafQueue s') /\
  (forall evs, exists s' l,
     browserRun (S (S fuel)) evs s = Some (tt, s', l) /\
     rafQueue s <= rafQueue s').
Proof.
  split; [|split].
  - destruct (main_advances fuel s) as [s' [l [Hrun [_ [Hq _]]]]].
    exists s', l. split; assumption.
  - unfold init. rewrite initWith_eq.
    destruct (main_advances fuel
                (set_lastTime (Some (dateNow (clockReads s)))
                   (set_clockReads (S (clockReads s)) s)))
      as [s' [l [Hrun [_ [Hq _]]]]].
    rewrite Hrun. eexists. eexists. split; [reflexivity|]. lia.
  - intros evs.
    destruct (browserRun_advances fuel evs s) as [s' [l [Hrun [_ [Hq _]]]]].
    exists s', l. split; assumption.
Qed.

Lemma waiting_frames_clock (fuel : nat) (calls : list nat) :
  forall s : State ER PR,
    gameStatus s <> InGame ->
    exists s' l,
      forEach calls (fun _ => main (S fuel)) s = Some (tt, s', l) /\
      clockReads s' = List.length calls + clockReads s.
Proof.
  induction calls as [|c calls IH]; intros s Hg.
  - exists s, []. split; reflexivity.
  - cbn [forEach]. unfold bind. rewrite main_waiting by exact Hg.
    destruct (IH (waitingFrame (closureOf (gameStatus s)) s))
      as [s' [l [Hrun Hc]]]; [exact Hg|].
    rewrite Hrun. eexists. eexists. split; [reflexivity|].
    rewrite Hc. simpl. lia.
Qed.

Lemma waiting_frame_frozen (fuel : nat) (s : State ER PR) :
  gameStatus s <> InGame ->
  exists s' l,
    animationFrame (S fuel) s = Some (tt, s', l) /\
    gameStatus s' = gameStatus s /\
    rafQueue s' = rafQueue s /\
    allEnemies s' = allEnemies s /\
    player s' = player s /\
    clockReads s' = rafQueue s + clockReads s.
Proof.
  intros Hg. unfold animationFrame, forRange, bind, gets, modify.
  destruct (waiting_frames fuel (seq 0 (rafQueue s)) (set_rafQueue 0 s) Hg)
    as [s' [l [Hrun [Hg' [Hq [_ [Hp He]]]]]]].
  destruct (waiting_frames_clock fuel (seq 0 (rafQueue s))
              (set_rafQueue 0 s) Hg) as [s2 [l2 [Hrun2 Hc]]].
  rewrite Hrun in Hrun2. injection Hrun2 as <- <-.
  rewrite Hrun. exists s', l. split; [reflexivity|].
  rewrite length_seq in Hq, Hc. simpl in *.
  repeat split; try assumption; lia.
Qed.

(** X6. A game that waits is frozen: while the phase is ["new game"] or
    ["game over"], any number of animation frames leaves the enemies and
    the player exactly as they were, and the phase and the length of the
    queue too, although every queued callback runs in every frame (the
    clock is read once by each). *)
Theorem waiting_game_is_frozen (fuel : nat) (n : nat) (s : State ER PR) :
  gameStatus s <> InGame ->
  exists s' l,
    browserRun (S (S fuel)) (repeat AnimationFrame n) s = Some (tt, s', l) /\
    gameStatus s' = gameStatus s /\
    rafQueue s' = rafQueue s /\
    allEnemies s' = allEnemies s /\
    player s' = player s /\
    clockReads s' = n * rafQueue s + clockReads s.
Proof.
  unfold browserRun. revert s.
  induction n as [|n IH]; intros s Hg.
  - exists s, []. repeat split.
  - cbn [repeat forEach browserStep]. unfold bind.
    destruct (waiting_frame_frozen (S fuel) s Hg)
      as [s1 [l1 [Hrun1 [Hg1 [Hq1 [He1 [Hp1 Hc1]]]]]]].
    destruct (IH s1) as [s' [l [Hrun [Hg' [Hq [He [Hp Hc]]]]]]];
      [congruence|].
    rewrite Hrun1, Hrun. eexists. eexists. split; [reflexivity|].
    rewrite Hg', Hq, He, Hp, Hc, Hg1, Hq1, He1, Hp1, Hc1.
    repeat split. simpl. lia.
Qed.

(** X7. The time step. A call of [main] made while [lastTime] is still
    undefined passes NaN to [update], whatever the clock says; [init]
    defines [lastTime], and from a page on which it is defined no run makes
    it undefined again. *)
Theorem dt_is_a_number_only_after_init (fuel : nat) (s : State ER PR) :
  (lastTime s = None ->
   exists s' inUpdate inRender,
     main (S (S fuel)) s
     = Some (tt, s',
             [Call Fmain
                [ReadDateNow (dateNow (clockReads s));
                 Call (Fupdate PrimFloat.nan) inUpdate;
                 Call Frender inRender;
                 AssignLastTime (dateNow (clockReads s));
                 RequestAnimationFrame]])) /\
  (exists s' l,
     init (S (S fuel)) s = Some (tt, s', l) /\ lastTime s' <> None) /\
  (lastTime s <> None ->
   forall evs, exists s' l,
     browserRun (S (S fuel)) evs s = Some (tt, s', l) /\
     lastTime s' <> None).
Proof.
  split; [|split].
  - intros Hlast.
    assert (Hdt : ((dateNow (clockReads s) - toNumber (lastTime s)) / 1000)%float
                  = PrimFloat.nan).
    { rewrite Hlast. simpl toNumber. rewrite sub_nan_r. reflexivity. }
    change (main (S (S fuel))) with (mainWith (init (S fuel))).
    destruct (gameStatus s) eqn:Hg.
    + rewrite mainWith_waiting by congruence.
      unfold mainChildren. rewrite Hdt. eexists. eexists. eexists. reflexivity.
    + rewrite mainWith_InGame by exact Hg.
      rewrite checkCollisions_init. cbv zeta.
      unfold mainChildren. rewrite Hdt.
      destruct (PrimFloat.ltb _ _); eexists; eexists; eexists; reflexivity.
    + rewrite mainWith_waiting by congruence.
      unfold mainChildren. rewrite Hdt. eexists. eexists. eexists. reflexivity.
  - unfold init. rewrite initWith_eq.
    destruct (main_advances fuel
                (set_lastTime (Some (dateNow (clockReads s)))
                   (set_clockReads (S (clockReads s)) s)))
      as [s' [l [Hrun [_ [_ [Ht _]]]]]].
    rewrite Hrun. eexists. eexists. split; [reflexivity | exact Ht].
  - intros Hlast evs.
    destruct (browserRun_advances fuel evs s)
      as [s' [l [Hrun [_ [_ [Ht _]]]]]].
    exists s', l. split; [exact Hrun | exact (Ht Hlast)].
Qed.

(** ** More on listeners *)

Lemma NoDup_listenersOf ty (t : ListenerTable) :
  NoDup t -> NoDup (listenersOf ty t).
Proof.
  unfold listenersOf. induction t as [|[ty' f] t IH]; intros Hnd; simpl.
  - constructor.
  - inversion Hnd as [|e t' Hnotin Hnd']; subst.
    destruct (eventType_eqb ty ty') eqn:Hty; simpl; [|apply IH; exact Hnd'].
    apply eventType_eqb_eq in Hty. subst ty'.
    constructor; [|apply IH; exact Hnd'].
    intros Hin. apply Hnotin. apply (listenersOf_In ty f t). exact Hin.
Qed.

Lemma only_one {A} (a : A) (l : list A) :
  NoDup l -> (forall x, In x l -> x = a) -> In a l -> l = [a].
Proof.
  intros Hnd Hall Hin. destruct l as [|x l]; [destruct Hin|].
  assert (x = a) by (apply Hall; left; reflexivity). subst x.
  destruct l as [|y l]; [reflexivity|].
  assert (y = a) by (apply Hall; right; left; reflexivity). subst y.
  inversion Hnd as [|? ? Hnotin _]; subst. exfalso. apply Hnotin. left.
  reflexivity.
Qed.

Lemma listenersOf_none ty (t : ListenerTable) :
  (forall f, ~ In (ty, f) t) -> listenersOf ty t = [].
Proof.
  intros Hnone. destruct (listenersOf ty t) as [|f fs] eqn:Hfs; [reflexivity|].
  exfalso. apply (Hnone f). apply listenersOf_In. rewrite Hfs. left.
  reflexivity.
Qed.

Lemma keyup_is_input c (t : ListenerTable) f :
  tableKnown c t -> In (KeyUp, f) t -> f = Input.
Proof.
  intros Hk Hin. destruct f as [|i|i]; [reflexivity | |];
    destruct (Hk KeyUp i) as [Hty _]; auto; discriminate.
Qed.

(** The table [update] leaves in a phase that waits for Enter has nothing
    on key-up. *)
Lemma keyup_empty_when_waiting c g (t : ListenerTable) :
  tableKnown c t ->
  listenersOf KeyUp
    (addEventListener KeyDown g (removeEventListener KeyUp Input t)) = [].
Proof.
  intros Hk. apply listenersOf_none. intros f Hin.
  apply addEventListener_inv in Hin. destruct Hin as [Hin | Heq];
    [|discriminate].
  assert (f = Input)
    by (apply (keyup_is_input c t); [exact Hk|];
        apply removeEventListener_inv in Hin; exact Hin).
  subst f. exact (removeEventListener_gone _ _ _ Hin).
Qed.

(** The table [update] leaves in the phase ["in game"] has [input], once,
    on key-up. *)
Lemma keyup_input_in_game c (t : ListenerTable) :
  tableKnown c t -> NoDup t ->
  listenersOf KeyUp (addEventListener KeyUp Input t) = [Input].
Proof.
  intros Hk Hnd. apply only_one.
  - apply NoDup_listenersOf, NoDup_addEventListener. exact Hnd.
  - intros f Hin. apply listenersOf_In in Hin.
    apply (keyup_is_input c (addEventListener KeyUp Input t));
      [apply tableKnown_add_input; exact Hk | exact Hin].
  - apply listenersOf_In. apply addEventListener_has.
Qed.

(** X8. The movement handler follows the phase. On a page whose closures
    are the engine's and whose table holds no registration twice: after a
    call of [update] in the phase ["new game"] or ["game over"] a key-up
    event calls nothing and changes nothing; after a call in the phase
    ["in game"] a key-up event calls [input] exactly once when the game
    goes on, and calls nothing when that call of [update] has won the
    game. *)
Theorem movement_listener_follows_phase (fuel : nat) (dt : number)
    (keyCode : Z) (s : State ER PR) :
  closuresKnown s ->
  NoDup (listeners s) ->
  (gameStatus s <> InGame ->
   forall this_init : Script unit,
   exists s1,
     update this_init dt s = Some (tt, s1, [Call (Fupdate dt) []]) /\
     dispatchEvent KeyUp keyCode s1 = Some (tt, s1, [])) /\
  (gameStatus s = InGame ->
   exists s1 l,
     update (init (S fuel)) dt s = Some (tt, s1, l) /\
     dispatchEvent KeyUp keyCode s1
     = Some (tt,
             match gameStatus s1 with
             | InGame => set_player (input keyCode (player s1)) s1
             | _ => s1
             end,
             [])).
Proof.
  intros Hk Hnd. split.
  - intros Hg this_init. rewrite update_waiting by exact Hg.
    eexists. split; [reflexivity|].
    unfold dispatchEvent, bind, gets. simpl listeners.
    rewrite (keyup_empty_when_waiting (closures s)) by exact Hk.
    reflexivity.
  - intros Hg. rewrite update_InGame by exact Hg.
    rewrite checkCollisions_init. cbv zeta.
    destruct (PrimFloat.ltb _ _).
    + eexists. eexists. split; [reflexivity|].
      unfold dispatchEvent, bind, gets. simpl listeners. simpl gameStatus.
      rewrite (keyup_empty_when_waiting (closures s))
        by (apply tableKnown_add_input; exact Hk).
      reflexivity.
    + eexists. eexists. split; [reflexivity|].
      unfold dispatchEvent, bind, gets. simpl listeners. simpl gameStatus.
      rewrite (keyup_input_in_game (closures s)) by assumption.
      rewrite Hg. reflexivity.
Qed.

(** The table of a page that held no registration twice holds none twice
    after any run (so that the condition of the property above holds on
    every page reached). *)
Lemma browserRun_keeps_NoDup (fuel : nat) (evs : list BrowserEvent)
    (s : State ER PR) :
  NoDup (listeners s) ->
  exists s' l,
    browserRun (S (S fuel)) evs s = Some (tt, s', l) /\
    NoDup (listeners s').
Proof.
  intros Hnd.
  destruct (browserRun_advances fuel evs s)
    as [s' [l [Hrun [_ [_ [_ [_ Hkeep]]]]]]].
  exists s', l. split; [exact Hrun | exact (Hkeep Hnd)].
Qed.

Lemma addEventListener_again ty f (t : ListenerTable) :
  In (ty, f) t -> addEventListener ty f t = t.
Proof.
  intros Hin. unfold addEventListener.
  apply existsb_entry in Hin. rewrite Hin. reflexivity.
Qed.

(** X9. In the phase ["in game"] the listeners do not pile up: [update]
    makes no closure there, and what it registers, in every frame, is the
    one function [input] of app.js, which the document does not register
    again. So a call of [update] that does not win leaves [input] on
    key-up, and leaves the whole table as it was when [input] was there
    already. *)
Theorem inGame_update_keeps_the_listener_table (fuel : nat) (dt : number)
    (s : State ER PR) :
  gameStatus s = InGame ->
  PrimFloat.ltb
    (player_y
       (afterEnemies (allEnemies (enteringCollisions dt s))
                     (player (enteringCollisions dt s)))) 0%float = false ->
  exists s' l,
    update (init (S fuel)) dt s = Some (tt, s', l) /\
    closures s' = closures s /\
    listeners s' = addEventListener KeyUp Input (listeners s) /\
    In (KeyUp, Input) (listeners s') /\
    (In (KeyUp, Input) (listeners s) -> listeners s' = listeners s).
Proof.
  intros Hg Hy. rewrite update_InGame by exact Hg.
  rewrite checkCollisions_init. cbv zeta. rewrite Hy.
  eexists. eexists. split; [reflexivity|].
  split; [reflexivity|]. split; [reflexivity|]. split.
  - simpl. apply addEventListener_has.
  - intros Hin. simpl. apply addEventListener_again. exact Hin.
Qed.

Lemma waiting_frames_listeners (fuel : nat) (calls : list nat) :
  forall s : State ER PR,
    gameStatus s <> InGame ->
    closuresKnown s ->
    exists s' l,
      forEach calls (fun _ => main (S fuel)) s = Some (tt, s', l) /\
      listenersOf KeyDown (listeners s')
      = listenersOf KeyDown (listeners s)
        ++ map (closureOf (gameStatus s))
               (seq (closures s) (List.length calls)) /\
      closures s' = List.length calls + closures s.
Proof.
  induction calls as [|c calls IH]; intros s Hg Hk.
  - exists s, []. simpl. rewrite app_nil_r. repeat split.
  - cbn [forEach]. unfold bind. rewrite main_waiting by exact Hg.
    set (mk := closureOf (gameStatus s)).
    assert (Hmk : mk = StartInput \/ mk = GameoverInput)
      by apply closureOf_cases.
    assert (Hl1 : listenersOf KeyDown (listeners (waitingFrame mk s))
                  = listenersOf KeyDown (listeners s) ++ [mk (closures s)]).
    { change (listeners (waitingFrame mk s))
        with (listeners (waitingUpdate mk s)).
      rewrite waitingUpdate_listeners by assumption.
      rewrite listenersOf_app, listenersOf_remove_keyup. reflexivity. }
    destruct (IH (waitingFrame mk s)) as [s' [l [Hrun [Hl Hc]]]].
    + exact Hg.
    + apply (evolves_waitingUpdate mk s);
        [exact Hmk | reflexivity | reflexivity | exact Hk].
    + rewrite Hrun. eexists. eexists. split; [reflexivity|].
      rewrite Hl, Hl1, Hc. simpl. rewrite <- app_assoc. simpl.
      split; [reflexivity | lia].
Qed.

(** X10. The listeners pile up at the rate of the frame loop: while the
    phase waits for Enter, an animation frame with [n] callbacks queued
    puts [n] new closures on key-down, after those that were there. *)
Theorem waiting_frame_adds_a_listener_per_callback (fuel : nat)
    (s : State ER PR) :
  gameStatus s <> InGame ->
  closuresKnown s ->
  exists s' l,
    animationFrame (S fuel) s = Some (tt, s', l) /\
    listenersOf KeyDown (listeners s')
    = listenersOf KeyDown (listeners s)
      ++ map (closureOf (gameStatus s)) (seq (closures s) (rafQueue s)) /\
    closures s' = rafQueue s + closures s.
Proof.
  intros Hg Hk. unfold animationFrame, forRange, bind, gets, modify.
  destruct (waiting_frames_listeners fuel (seq 0 (rafQueue s))
              (set_rafQueue 0 s) Hg Hk) as [s' [l [Hrun [Hl Hc]]]].
  rewrite Hrun. exists s', l. split; [reflexivity|].
  rewrite length_seq in Hl, Hc. split; [exact Hl | exact Hc].
Qed.

Lemma closures_change_nothing_in_game (keyCode : Z) (fs : list Listener) :
  forall s : State ER PR,
    gameStatus s = InGame ->
    (forall f, In f fs -> isClosure f = true) ->
    exists l, forEach fs (runListener keyCode) s = Some (tt, s, l).
Proof.
  induction fs as [|f fs IH]; intros s Hg Hall.
  - exists []. reflexivity.
  - cbn [forEach]. unfold bind.
    assert (Hf : isClosure f = true) by (apply Hall; left; reflexivity).
    assert (Hstep : exists l1, runListener keyCode f s = Some (tt, s, l1)).
    { destruct f as [|i|i]; [discriminate | |]; simpl;
        (destruct (keyCode =? 13)%Z; [|exists []; reflexivity]);
        exists [AssignGameStatus InGame];
        unfold assignGameStatus, modify, emit, bind;
        destruct s; simpl in Hg; subst; reflexivity. }
    destruct Hstep as [l1 Hstep].
    destruct (IH s Hg) as [l Hrun];
      [intros f' Hin; apply Hall; right; exact Hin|].
    rewrite Hstep, Hrun. eexists. reflexivity.
Qed.

Lemma filter_all {A} (f : A -> bool) (l : list A) :
  (forall x, In x l -> f x = true) -> filter f l = l.
Proof.
  induction l as [|a l IH]; intros Hall; [reflexivity|].
  simpl. rewrite (Hall a (or_introl eq_refl)). f_equal.
  apply IH. intros x Hin. apply Hall. right. exact Hin.
Qed.

(** X11. The closures left on key-down are harmless while the game runs:
    in the phase ["in game"], on a page where app.js has not put [input] on
    key-down, a key-down event of any key changes nothing; when the key is
    Enter every closure on key-down is called and assigns ["in game"],
    which the phase is already. *)
Theorem keydown_changes_nothing_in_game (keyCode : Z) (s : State ER PR) :
  gameStatus s = InGame ->
  ~ In (KeyDown, Input) (listeners s) ->
  dispatchEvent KeyDown keyCode s
  = Some (tt, s,
          if (keyCode =? 13)%Z
          then map (fun _ => AssignGameStatus InGame)
                   (listenersOf KeyDown (listeners s))
          else []).
Proof.
  intros Hg Hno.
  assert (Hall : forall f, In f (listenersOf KeyDown (listeners s)) ->
                           isClosure f = true).
  { intros f Hin. apply listenersOf_In in Hin.
    destruct f; [contradiction | reflexivity | reflexivity]. }
  destruct (dispatchEvent_eq KeyDown keyCode s) as [s' [Hrun _]].
  rewrite (filter_all isClosure _ Hall) in Hrun.
  rewrite Hrun. f_equal. f_equal. f_equal.
  revert Hrun. unfold dispatchEvent, bind, gets.
  destruct (closures_change_nothing_in_game keyCode
              (listenersOf KeyDown (listeners s)) s Hg Hall) as [l Hsame].
  rewrite Hsame. intros Heq. injection Heq as <- _. reflexivity.
Qed.

(** ** More on drawing *)

Lemma filter_sprites (enemies : list (Enemy ER)) :
  filter isSprite (map (@EnemyRender ER PR) enemies)
  = map EnemyRender enemies.
Proof.
  induction enemies as [|e es IH]; simpl; [reflexivity | f_equal; exact IH].
Qed.

(** X12. The board is the same in every phase: whatever the phase, [render]
    draws the 30 tiles of the 6 rows and 5 columns, row by row, and what
    differs between the phases is only what is drawn over them. *)
Theorem render_draws_the_board_in_every_phase (s : State ER PR) :
  exists drawn,
    render s = Some (tt, s, [Call Frender drawn]) /\
    filter isTile drawn = board [] /\
    List.length (filter isTile drawn) = numRows * numCols.
Proof.
  rewrite render_eq. eexists. split; [reflexivity|].
  assert (Htiles : filter isTile
                     (ClearRect 0%float 0%float canvas_width canvas_height
                      :: scene s) = board []).
  { rewrite filter_skip by reflexivity.
    unfold scene. destruct (gameStatus s).
    - vm_compute. reflexivity.
    - rewrite filter_app.
      replace (filter isTile
                 [Call FrenderEntities
                    (map EnemyRender (allEnemies s)
                     ++ [PlayerRender (player s)])])
        with (@nil (Ev ER PR)) by reflexivity.
      rewrite app_nil_r. vm_compute. reflexivity.
    - vm_compute. reflexivity. }
  split; [exact Htiles|]. rewrite Htiles. vm_compute. reflexivity.
Qed.

(** X13. The entities are drawn only while the game runs, each enemy once
    in the order of the array and the player last, so that the player is on
    top; in the phases ["new game"] and ["game over"] [render] draws no
    entity. *)
Theorem sprites_are_drawn_only_in_game (s : State ER PR) :
  exists l,
    render s = Some (tt, s, l) /\
    filter isSprite (leavesOf l)
    = match gameStatus s with
      | InGame => map EnemyRender (allEnemies s) ++ [PlayerRender (player s)]
      | _ => []
      end.
Proof.
  rewrite render_eq. eexists. split; [reflexivity|].
  rewrite leavesOf_cons, leaves_Call, leavesOf_cons.
  replace (leavesOf (@nil (Ev ER PR))) with (@nil (Ev ER PR)) by reflexivity.
  rewrite app_nil_r, filter_app.
  replace (filter isSprite
             (leaves (ClearRect 0%float 0%float canvas_width canvas_height)))
    with (@nil (Ev ER PR)) by reflexivity.
  rewrite app_nil_l.
  unfold scene. destruct (gameStatus s).
  - vm_compute. reflexivity.
  - rewrite leavesOf_app, filter_app.
    replace (filter isSprite (leavesOf (board [])))
      with (@nil (Ev ER PR)) by (vm_compute; reflexivity).
    rewrite app_nil_l.
    rewrite leavesOf_cons, leaves_Call, leavesOf_app, leaves_of_sprites.
    replace (leavesOf (@nil (Ev ER PR))) with (@nil (Ev ER PR)) by reflexivity.
    rewrite app_nil_r, filter_app, filter_sprites.
    reflexivity.
  - vm_compute. reflexivity.
Qed.

(** X14. The frame in which the game is won clears the canvas and draws
    the board twice (once in the call of [main] made by [init], once in the
    frame itself) and never the entities: the player is not shown at the
    top. *)
Theorem winning_frame_draws_game_over_twice (fuel : nat) (s : State ER PR) :
  gameStatus s = InGame ->
  PrimFloat.ltb
    (player_y
       (afterEnemies
          (allEnemies (enteringCollisions (frameDelta s)
                         (set_clockReads (S (clockReads s)) s)))
          (player (enteringCollisions (frameDelta s)
                     (set_clockReads (S (clockReads s)) s)))))
    0%float = true ->
  exists s' l,
    main (S (S fuel)) s = Some (tt, s', l) /\
    filter isClear (leavesOf l) = [clearAll; clearAll] /\
    filter isSprite (leavesOf l) = [] /\
    filter isTile (leavesOf l) = board [] ++ board [].
Proof.
  intros Hg Hy.
  change (main (S (S fuel))) with (mainWith (init (S fuel))).
  rewrite mainWith_InGame by exact Hg.
  rewrite checkCollisions_init. cbv zeta. rewrite Hy.
  eexists. eexists. split; [reflexivity|].
  split; [|split]; vm_compute; reflexivity.
Qed.

(** ** More on [update] *)

Lemma afterEnemies_cases (enemies : list (Enemy ER)) (p : Player PR) :
  afterEnemies enemies p = p \/ afterEnemies enemies p = startPosition p.
Proof.
  destruct (some_enemy_or_none enemies p) as [Hhit | Hmiss].
  - right. apply afterEnemies_hit. exact Hhit.
  - left. apply afterEnemies_miss. exact Hmiss.
Qed.

(** X15. In the phase ["in game"], [update] moves before it tests: the
    collisions and the win are tested on the positions that the [update]
    methods of the entities have left, not on those of the frame before.
    When a moved enemy overlaps the moved player, the player is on the
    start tile and the phase is still ["in game"]; when none does and the
    moved player is not above the top, the player is where its [update] put
    it. The enemies are those their [update] with the [dt] of the frame
    has left, also when the game is won in this call. *)
Theorem update_moves_then_tests (fuel : nat) (dt : number)
    (s : State ER PR) :
  gameStatus s = InGame ->
  exists s' l,
    update (init (S fuel)) dt s = Some (tt, s', l) /\
    allEnemies s' = map (enemy_update dt) (allEnemies s) /\
    (player s' = player_update (player s) \/
     player s' = startPosition (player_update (player s))) /\
    ((exists enemy,
        In enemy (map (enemy_update dt) (allEnemies s)) /\
        collides (player_update (player s)) enemy = true) ->
     player s' = startPosition (player_update (player s)) /\
     gameStatus s' = InGame) /\
    ((forall enemy,
        In enemy (map (enemy_update dt) (allEnemies s)) ->
        collides (player_update (player s)) enemy = false) ->
     PrimFloat.ltb (player_y (player_update (player s))) 0%float = false ->
     player s' = player_update (player s) /\
     gameStatus s' = InGame).
Proof.
  intros Hg. rewrite update_InGame by exact Hg.
  rewrite checkCollisions_init. cbv zeta.
  change (allEnemies (enteringCollisions dt s))
    with (map (enemy_update dt) (allEnemies s)).
  change (player (enteringCollisions dt s)) with (player_update (player s)).
  set (moved := map (enemy_update dt) (allEnemies s)).
  set (p := player_update (player s)).
  destruct (PrimFloat.ltb (player_y (afterEnemies moved p)) 0%float) eqn:Hy.
  - eexists. eexists. split; [reflexivity|]. split; [reflexivity|].
    split;
      [right; simpl;
       destruct (afterEnemies_cases moved p) as [Hp | Hp]; rewrite Hp;
       reflexivity|].
    split.
    + intros Hhit. rewrite (afterEnemies_hit _ _ Hhit) in Hy.
      discriminate Hy.
    + intros Hmiss Hp. rewrite (afterEnemies_miss _ _ Hmiss) in Hy.
      congruence.
  - eexists. eexists. split; [reflexivity|]. split; [reflexivity|].
    split; [simpl; exact (afterEnemies_cases moved p)|]. split.
    + intros Hhit. simpl. rewrite (afterEnemies_hit _ _ Hhit).
      split; [reflexivity | exact Hg].
    + intros Hmiss _. simpl. rewrite (afterEnemies_miss _ _ Hmiss).
      split; [reflexivity | exact Hg].
Qed.

(** ** The start of the page *)

(** X16. The start. When [Resources] calls [init] on the page as engine.js
    left it (phase ["new game"], [lastTime] undefined, nothing queued, no
    closure in the table), [init] reads the clock twice, so that the first
    [dt] is the time between the two readings, draws the title screen and
    no entity, leaves the player and the enemies alone, takes [input] off
    key-up, puts the first [startInput] on key-down and queues [main]
    once. *)
Theorem page_load (fuel : nat) (p : Player PR) (enemies : list (Enemy ER))
    (t : ListenerTable) :
  tableKnown 0 t ->
  exists s' inRender,
    init (S fuel) (freshPage p enemies t)
    = Some (tt, s',
            [Call Finit
               [ReadDateNow (dateNow 0);
                AssignLastTime (dateNow 0);
                Call Fmain
                  [ReadDateNow (dateNow 1);
                   Call (Fupdate ((dateNow 1 - dateNow 0) / 1000)%float) [];
                   Call Frender inRender;
                   AssignLastTime (dateNow 1);
                   RequestAnimationFrame]]]) /\
    filter isSprite (leavesOf inRender) = [] /\
    gameStatus s' = NewGame /\
    player s' = p /\
    allEnemies s' = enemies /\
    lastTime s' = Some (dateNow 1) /\
    rafQueue s' = 1 /\
    listeners s'
    = removeEventListener KeyUp Input t ++ [(KeyDown, StartInput 0)].
Proof.
  intros Hk. rewrite init_waiting by (simpl; discriminate).
  eexists. eexists. split; [reflexivity|].
  split; [vm_compute; reflexivity|].
  repeat split.
  simpl. apply addEventListener_new.
  apply (tableKnown_fresh 0 StartInput); [left; reflexivity|].
  apply tableKnown_remove. exact Hk.
Qed.

End MoreFacts.

(** * The further properties at work on the sample pages *)

Lemma gameOverPage_known : closuresKnown gameOverPage.
Proof.
  intros ty id [[H | []] | [H | []]]; [|discriminate H].
  injection H as <- <-. split; [reflexivity | repeat constructor].
Defined.

Lemma startPage_NoDup : NoDup (listeners startPage).
Proof. constructor; [intros [] | constructor]. Defined.

(** X2: the enemy at (237, 380) touches the right edge of the hitbox of the
    player at (200, 380). *)
Lemma touching_hitboxes_witness :
  enemy_x (sampleEnemy 237%float 380%float)
  = (player_x (samplePlayer 200%float 380%float) + 37)%float /\
  collides (samplePlayer 200%float 380%float)
           (sampleEnemy 237%float 380%float) = false.
Proof.
  split; [reflexivity|].
  apply (touching_hitboxes_do_not_collide
           (samplePlayer 200%float 380%float)
           (sampleEnemy 237%float 380%float)).
  left. reflexivity.
Defined.

(** X3: Enter on the page that waits after a win. *)
Lemma phase_edges_witness :
  exists s' l,
    browserStep 2 (KeyDownEvent 13) gameOverPage = Some (tt, s', l) /\
    (gameStatus s' = gameStatus gameOverPage \/
     (gameStatus gameOverPage <> InGame /\ gameStatus s' = InGame /\
      KeyDownEvent 13 = KeyDownEvent 13) \/
     (gameStatus gameOverPage = InGame /\ gameStatus s' = GameOver /\
      KeyDownEvent 13 = AnimationFrame)).
Proof.
  apply (phase_moves_along_three_edges 0 (KeyDownEvent 13) gameOverPage
           gameOverPage_known).
Defined.

(** X4: a game, a win and a restart never show the title again. *)
Lemma newGame_never_again_witness :
  gameStatus gameOverPage <> NewGame /\
  exists s' l,
    browserRun 2 [AnimationFrame; KeyDownEvent 13; AnimationFrame]
      gameOverPage = Some (tt, s', l) /\
    gameStatus s' <> NewGame.
Proof.
  assert (Hg : gameStatus gameOverPage <> NewGame) by (simpl; discriminate).
  split; [exact Hg|].
  apply (newGame_is_never_reentered 0
           [AnimationFrame; KeyDownEvent 13; AnimationFrame] gameOverPage Hg).
Defined.

(** X6: three frames on the page that waits after a win, with two callbacks
    queued: the clock has been read six times and the running enemy is
    where it was. *)
Lemma waiting_game_witness :
  gameStatus pausedPage <> InGame /\
  rafQueue pausedPage = 2 /\
  exists s' l,
    browserRun 2 [AnimationFrame; AnimationFrame; AnimationFrame] pausedPage
    = Some (tt, s', l) /\
    gameStatus s' = gameStatus pausedPage /\
    rafQueue s' = rafQueue pausedPage /\
    allEnemies s' = allEnemies pausedPage /\
    player s' = player pausedPage /\
    clockReads s' = 3 * rafQueue pausedPage + clockReads pausedPage.
Proof.
  assert (Hg : gameStatus pausedPage <> InGame) by (simpl; discriminate).
  split; [exact Hg|]. split; [reflexivity|].
  apply (waiting_game_is_frozen 0 3 pausedPage Hg).
Defined.

(** X7: [main] on the start page, on which [init] has not run. *)
Lemma dt_before_init_witness :
  lastTime startPage = None /\
  exists s' inUpdate inRender,
    main 2 startPage
    = Some (tt, s',
            [Call Fmain
               [ReadDateNow (dateNow (clockReads startPage));
                Call (Fupdate PrimFloat.nan) inUpdate;
                Call Frender inRender;
                AssignLastTime (dateNow (clockReads startPage));
                RequestAnimationFrame]]).
Proof.
  split; [reflexivity|].
  apply (proj1 (dt_is_a_number_only_after_init 0 startPage)). reflexivity.
Defined.

(** X8: the up arrow is released on the start page after a call of
    [update]. *)
Lemma movement_listener_witness :
  gameStatus startPage <> InGame /\
  exists s1,
    update (init 1) 0.016%float startPage
    = Some (tt, s1, [Call (Fupdate 0.016%float) []]) /\
    dispatchEvent KeyUp 38 s1 = Some (tt, s1, []).
Proof.
  assert (Hg : gameStatus startPage <> InGame) by (simpl; discriminate).
  split; [exact Hg|].
  apply (proj1 (movement_listener_follows_phase 0 0.016%float 38 startPage
                  startPage_known startPage_NoDup) Hg (init 1)).
Defined.

(** X9: a call of [update] in the running game, where [input] is on key-up
    already: the enemy runs into the player, the game goes on and the table
    is as it was. *)
Lemma inGame_update_witness :
  gameStatus runningPage = InGame /\
  In (KeyUp, Input) (listeners runningPage) /\
  exists s' l,
    update (init 1) 0.016%float runningPage = Some (tt, s', l) /\
    closures s' = closures runningPage /\
    listeners s' = addEventListener KeyUp Input (listeners runningPage) /\
    In (KeyUp, Input) (listeners s') /\
    listeners s' = listeners runningPage.
Proof.
  assert (Hin : In (KeyUp, Input) (listeners runningPage))
    by (left; reflexivity).
  split; [reflexivity|]. split; [exact Hin|].
  destruct (@inGame_update_keeps_the_listener_table number unit sampleApp
              0 0.016%float runningPage eq_refl
              ltac:(vm_compute; reflexivity))
    as [s' [l [Hrun [Hc [Hl [Hi Hsame]]]]]].
  exists s', l. split; [exact Hrun|]. split; [exact Hc|].
  split; [exact Hl|]. split; [exact Hi | exact (Hsame Hin)].
Defined.

(** X10: two callbacks are queued on the page that waits after a win. *)
Lemma listener_per_callback_witness :
  gameStatus gameOverPage <> InGame /\
  rafQueue gameOverPage = 2 /\
  exists s' l,
    animationFrame 1 gameOverPage = Some (tt, s', l) /\
    listenersOf KeyDown (listeners s')
    = listenersOf KeyDown (listeners gameOverPage)
      ++ map (closureOf (gameStatus gameOverPage))
             (seq (closures gameOverPage) (rafQueue gameOverPage)) /\
    closures s' = rafQueue gameOverPage + closures gameOverPage.
Proof.
  assert (Hg : gameStatus gameOverPage <> InGame) by (simpl; discriminate).
  split; [exact Hg|]. split; [reflexivity|].
  apply (waiting_frame_adds_a_listener_per_callback 0 gameOverPage Hg
           gameOverPage_known).
Defined.

(** X11: Enter in the running game, with a [startInput] closure on
    key-down: the closure is called and nothing changes. *)
Lemma keydown_in_game_witness :
  gameStatus runningPage = InGame /\
  listenersOf KeyDown (listeners runningPage) = [StartInput 0] /\
  dispatchEvent KeyDown 13 runningPage
  = Some (tt, runningPage, [AssignGameStatus InGame]).
Proof.
  split; [reflexivity|]. split; [reflexivity|].
  apply (keydown_changes_nothing_in_game 13 runningPage); [reflexivity|].
  simpl. intros [H | [H | []]]; discriminate H.
Defined.

(** X14: the frame that wins. *)
Lemma winning_frame_witness :
  gameStatus wonPage = InGame /\
  exists s' l,
    main 2 wonPage = Some (tt, s', l) /\
    filter isClear (leavesOf l) = [clearAll; clearAll] /\
    filter isSprite (leavesOf l) = [] /\
    filter isTile (leavesOf l) = board [] ++ board [].
Proof.
  split; [reflexivity|].
  apply (winning_frame_draws_game_over_twice 0 wonPage); reflexivity.
Defined.

(** X15: in the running game the enemy at (39.5, 200) does not overlap the
    player at (100, 200); in 16 ms it runs to 41.1 and does: the player is
    put on the start tile in the same call. *)
Lemma update_moves_then_tests_witness :
  gameStatus runningPage = InGame /\
  player runningPage = samplePlayer 100%float 200%float /\
  collides (player runningPage) (movingEnemy 39.5%float 200%float 100%float)
  = false /\
  exists s' l,
    update (init 1) 0.016%float runningPage = Some (tt, s', l) /\
    allEnemies s' = map (enemy_update 0.016%float) (allEnemies runningPage) /\
    player s' = startPosition (player_update (player runningPage)) /\
    gameStatus s' = InGame /\
    player s' = samplePlayer 200%float 380%float.
Proof.
  split; [reflexivity|]. split; [reflexivity|]. split; [reflexivity|].
  destruct (@update_moves_then_tests number unit sampleApp
              0 0.016%float runningPage eq_refl)
    as [s' [l [Hrun [He [_ [Hhit _]]]]]].
  assert (Hmoved : exists enemy,
             In enemy (map (enemy_update 0.016%float) (allEnemies runningPage))
             /\ collides (player_update (player runningPage)) enemy = true).
  { eexists. split; [left; reflexivity | vm_compute; reflexivity]. }
  destruct (Hhit Hmoved) as [Hp Hg].
  exists s', l. split; [exact Hrun|]. split; [exact He|].
  split; [exact Hp|]. split; [exact Hg|].
  rewrite Hp. reflexivity.
Defined.

(** X16: the start page. *)
Lemma page_load_witness :
  exists s' inRender,
    init 1 startPage
    = Some (tt, s',
            [Call Finit
               [ReadDateNow (dateNow 0);
                AssignLastTime (dateNow 0);
                Call Fmain
                  [ReadDateNow (dateNow 1);
                   Call (Fupdate ((dateNow 1 - dateNow 0) / 1000)%float) [];
                   Call Frender inRender;
                   AssignLastTime (dateNow 1);
                   RequestAnimationFrame]]]) /\
    filter isSprite (leavesOf inRender) = [] /\
    gameStatus s' = NewGame /\
    player s' = samplePlayer 200%float 380%float /\
    allEnemies s' = [sampleEnemy 0%float 60%float] /\
    lastTime s' = Some (dateNow 1) /\
    rafQueue s' = 1 /\
    listeners s'
    = removeEventListener KeyUp Input [(KeyUp, Input)]
      ++ [(KeyDown, StartInput 0)].
Proof.
  apply (page_load 0 (samplePlayer 200%float 380%float)
           [sampleEnemy 0%float 60%float] [(KeyUp, Input)]).
  exact startPage_known.
Defined.
